(** * WearSearch: the interactive relevance-feedback retrieval loop

    A shallow embedding of the backend's query refinement (rocchio.py,
    query_composer.py), vector store (vector_store.py), session manager
    (session_manager.py) and the search and feedback handlers of main.py.

    Numbers: numpy's arrays of floats are modelled as lists of real
    numbers, so the statements below are about exact arithmetic, and the
    cast [astype(np.float32)] is the identity; the one exception is the
    section on the range of float32, which reads the normalization of
    [search] with overflow and underflow.  Vectors are one-dimensional
    and, within one computation, of one dimension (the embedding
    dimension).  Where numpy would produce NaN (a division by a zero norm
    that the code does not guard) the model stops with the outcome
    [NotANumber] instead of inventing a value; [search] is the exception,
    because there the NaN query has a definite effect: the engine finds
    nothing. *)

From Stdlib Require Import Reals Lra Lia ZArith.
From stdpp Require Import gmap strings list sorting.

Open Scope R_scope.

(** ** Outcomes of fallible code *)

Inductive exn : Type :=
  | AssertionError
  | IndexError
  | RuntimeError
  | ValueError
  | HTTPException (status : nat).

Inductive outcome (A : Type) : Type :=
  | Ok (a : A)
  | Raise (e : exn)
  | NotANumber.

Arguments Ok {A} a.
Arguments Raise {A} e.
Arguments NotANumber {A}.

#[global] Instance outcome_ret : MRet outcome := @Ok.

#[global] Instance outcome_bind : MBind outcome := fun A B f m =>
  match m with
  | Ok a => f a
  | Raise e => Raise e
  | NotANumber => NotANumber
  end.

(** ** Vectors (one-dimensional numpy arrays) *)

Definition vec : Type := list R.

Definition Rsum (l : list R) : R := foldr Rplus 0 l.

Definition scale (c : R) (v : vec) : vec := map (Rmult c) v.

Definition vdiv (v : vec) (d : R) : vec := map (fun x => x / d) v.

(** [u + v], [u - v], [u * v] on arrays of one length.  (On arrays of
    different lengths numpy stretches an array of length 1 and raises
    [ValueError] otherwise; the functions below meet vectors of one
    dimension only, and [broadcast] further down is the general case.) *)
Definition vadd (u v : vec) : vec := zip_with Rplus u v.

Definition vsub (u v : vec) : vec := zip_with Rminus u v.

Definition vmul (u v : vec) : vec := zip_with Rmult u v.

(** [np.dot] on two vectors. *)
Definition dot (u v : vec) : R := Rsum (vmul u v).

(** [np.linalg.norm]. *)
Definition norm (v : vec) : R := sqrt (dot v v).

(** [np.mean(rows, axis=0)]: the column sums divided by the number of rows. *)
Definition mean_rows (rows : list vec) : vec :=
  match rows with
  | [] => []
  | r :: rs => vdiv (foldl vadd r rs) (INR (length rows))
  end.

(** [np.clip(x, lo, hi)]. *)
Definition clip (lo hi x : R) : R := Rmin (Rmax x lo) hi.

(** [v / np.linalg.norm(v)] without a guard: NaN when the norm is zero. *)
Definition unit_scale (v : vec) : outcome vec :=
  if Req_dec_T (norm v) 0 then NotANumber else Ok (vdiv v (norm v)).

(** Python's [l[:m]]. *)
Definition slice_to {A : Type} (m : Z) (l : list A) : list A :=
  if (0 <=? m)%Z then take (Z.to_nat m) l
  else take (length l - Z.to_nat (- m)) l.

(** ** config.py *)

Definition EMBEDDING_DIM : nat := 512.
Definition ROCCHIO_ALPHA : R := 1.0.
Definition ROCCHIO_BETA : R := 0.75.
Definition ROCCHIO_GAMMA : R := 0.15.
Definition PRF_TOP_K : Z := 5.

(** ** rocchio.py *)

Record RocchioAlgorithm : Type := mkRocchioAlgorithm {
  alpha : R;
  beta : R;
  gamma : R
}.

(** [RocchioAlgorithm.__init__]. *)
Definition RocchioAlgorithm_init (a b g : option R) : RocchioAlgorithm :=
  {| alpha := default ROCCHIO_ALPHA a;
     beta := default ROCCHIO_BETA b;
     gamma := default ROCCHIO_GAMMA g |}.

(** [x is not None and len(x) > 0]. *)
Definition has_rows (x : option (list vec)) : bool :=
  match x with
  | Some rows => bool_decide (0 < length rows)%nat
  | None => false
  end.

(** The rows of an optional array; only read when [has_rows] holds. *)
Definition rows_of (x : option (list vec)) : list vec := default [] x.

Definition default_text_weight : R := 0.3.

(** [RocchioAlgorithm.refine_query]. *)
Definition refine_query (self : RocchioAlgorithm) (query_vector : vec)
    (relevant_vectors non_relevant_vectors : option (list vec))
    (text_modification_vector : option vec) (text_weight : R) : vec :=
  let refined := scale (alpha self) query_vector in
  let refined :=
    if has_rows relevant_vectors
    then vadd refined (scale (beta self) (mean_rows (rows_of relevant_vectors)))
    else refined in
  let refined :=
    if has_rows non_relevant_vectors
    then vsub refined (scale (gamma self) (mean_rows (rows_of non_relevant_vectors)))
    else refined in
  let refined :=
    match text_modification_vector with
    | Some t => vadd (scale (1 - text_weight) refined) (scale text_weight t)
    | None => refined
    end in
  let n := norm refined in
  if Rlt_dec 0 n then vdiv refined n else refined.

(** [RocchioAlgorithm.pseudo_relevance_feedback]. *)
Definition pseudo_relevance_feedback (self : RocchioAlgorithm)
    (query_vector : vec) (top_vectors : list vec) (top_m : option Z) : vec :=
  let top_m := default PRF_TOP_K top_m in
  let relevant_vectors :=
    if (Z.of_nat (length top_vectors) >=? top_m)%Z
    then slice_to top_m top_vectors
    else top_vectors in
  refine_query self query_vector (Some relevant_vectors) None None
    default_text_weight.

(** The global instance [rocchio = RocchioAlgorithm()]. *)
Definition rocchio : RocchioAlgorithm := RocchioAlgorithm_init None None None.

(** ** query_composer.py *)

Inductive CompositionMethod : Type :=
  | ADDITIVE
  | INTERPOLATION
  | RESIDUAL
  | ATTENTION.

Record QueryComposer : Type := mkQueryComposer {
  default_method : CompositionMethod;
  additive_lambda : R;
  interpolation_alpha : R;
  residual_strength : R;
  attention_temperature : R
}.

(** [QueryComposer._normalize]. *)
Definition _normalize (vector : vec) : vec :=
  let n := norm vector in
  if Rlt_dec 0 n then vdiv vector n else vector.

(** [QueryComposer._additive_compose]. *)
Definition _additive_compose (self : QueryComposer) (query text : vec) : vec :=
  vadd query (scale (additive_lambda self) text).

(** [QueryComposer._interpolation_compose]. *)
Definition _interpolation_compose (self : QueryComposer) (query text : vec)
    : vec :=
  vadd (scale (1 - interpolation_alpha self) query)
       (scale (interpolation_alpha self) text).

(** The local [residual] of [_residual_compose]: the text vector minus its
    projection on the query direction. *)
Definition residual_of (query text : vec) : vec :=
  let projection := scale (dot text query) query in
  vsub text projection.

(** [QueryComposer._residual_compose]. *)
Definition _residual_compose (self : QueryComposer) (query text : vec) : vec :=
  vadd query (scale (residual_strength self) (residual_of query text)).

(** The local [attention_weights] of [_attention_compose], after clamping.
    The quotient by the temperature is numpy's for a temperature other
    than zero; at zero numpy yields infinities and NaN.  The statements
    about this method are made for the temperatures that
    [temperature_in_range] admits, among them the default 1.0. *)
Definition attention_weights_of (self : QueryComposer) (text : vec) : vec :=
  let text_importance := map Rabs text in
  let attention_weights :=
    map (fun x => exp (x / attention_temperature self)) text_importance in
  let attention_weights :=
    map (fun w => w / Rsum attention_weights * INR (length attention_weights))
        attention_weights in
  map (clip 0.5 2.0) attention_weights.

(** The local [text_influence] of [_attention_compose]. *)
Definition text_influence_of (self : QueryComposer) (text : vec) : vec :=
  map (fun w => (w - 1.0) / 2.0 + 0.5) (attention_weights_of self text).

(** [QueryComposer._attention_compose]. *)
Definition _attention_compose (self : QueryComposer) (query text : vec) : vec :=
  let text_influence := text_influence_of self text in
  vadd (vmul (map (fun i => 1 - i) text_influence) query)
       (vmul text_influence text).

(** [QueryComposer.compose]. *)
Definition compose (self : QueryComposer) (query_vector text_vector : vec)
    (method : option CompositionMethod) : vec :=
  let method := default (default_method self) method in
  let query_vector := _normalize query_vector in
  let text_vector := _normalize text_vector in
  let result :=
    match method with
    | ADDITIVE => _additive_compose self query_vector text_vector
    | INTERPOLATION => _interpolation_compose self query_vector text_vector
    | RESIDUAL => _residual_compose self query_vector text_vector
    | ATTENTION => _attention_compose self query_vector text_vector
    end in
  _normalize result.

Inductive Aggregation : Type :=
  | sequential
  | average.

(** [QueryComposer.compose_multiple]. *)
Definition compose_multiple (self : QueryComposer) (query_vector : vec)
    (text_vectors : list vec) (method : option CompositionMethod)
    (aggregation : Aggregation) : vec :=
  match text_vectors with
  | [] => _normalize query_vector
  | _ =>
      match aggregation with
      | average => compose self query_vector (mean_rows text_vectors) method
      | sequential =>
          foldl (fun result text_vec => compose self result text_vec method)
                query_vector text_vectors
      end
  end.

(** The global instance [query_composer]. *)
Definition query_composer : QueryComposer :=
  {| default_method := RESIDUAL;
     additive_lambda := 0.5;
     interpolation_alpha := 0.6;
     residual_strength := 0.8;
     attention_temperature := 1.0 |}.

(** ** The nearest-neighbour engine (faiss.IndexFlatIP)

    The engine is an external library; the model follows the contract the
    store relies on: a flat list of rows, [ntotal] its length, [add]
    appending rows of the index's dimension, [reconstruct] reading a row
    back, and [search] returning the [k] best inner products in
    non-increasing order, each with the slot of its row.  The order among
    equal scores is an internal matter of the engine; the model puts the
    earlier slot first, and no statement below depends on that choice. *)

Definition IndexFlatIP : Type := list vec.

Definition ntotal (index : IndexFlatIP) : nat := length index.

(** Insert a scored slot before the first entry whose score is not
    larger. *)
Fixpoint insert_desc (x : R * Z) (l : list (R * Z)) : list (R * Z) :=
  match l with
  | [] => [x]
  | y :: l' => if Rle_dec (fst y) (fst x) then x :: y :: l'
               else y :: insert_desc x l'
  end.

Definition sort_desc (l : list (R * Z)) : list (R * Z) :=
  foldr insert_desc [] l.

(** [index.search(query, k)] for a single query row of numbers, after the
    engine's assertions on the dimension and on [k > 0], which [search]
    below carries; its caller passes [k <= ntotal], so on such a query the
    padding with slot [-1] never occurs. *)
Definition index_search (index : IndexFlatIP) (query : vec) (k : nat)
    : list (R * Z) :=
  take k (sort_desc (imap (fun i row => (dot query row, Z.of_nat i)) index)).

(** [index.reconstruct(idx)]. *)
Definition index_reconstruct (index : IndexFlatIP) (idx : nat) : outcome vec :=
  match index !! idx with
  | Some v => Ok v
  | None => Raise RuntimeError
  end.

(** ** vector_store.py *)

(** A JSON-like metadata dictionary. *)
Definition meta : Type := list (string * string).

(** One entry of [metadata["images"]]. *)
Record ImageData : Type := mkImageData {
  image_id : string;
  filename : string;
  idx : nat;
  metadata : meta
}.

Record VectorStore : Type := mkVectorStore {
  dimension : nat;
  index : IndexFlatIP;
  images : list ImageData;
  id_to_idx : gmap string nat
}.

(** The argument [vectors] of [add_vectors]: a 1-D or a 2-D array. *)
Inductive ndarray : Type :=
  | Array1 (v : vec)
  | Array2 (rows : list vec).

(** What [add_vectors] leaves behind: the store after a normal return, or
    the exception together with the store as mutated up to that point. *)
Inductive add_result : Type :=
  | Added (s : VectorStore)
  | Failed (e : exn) (s : VectorStore)
  | AddedNaN.

(** [metadata_list[i] if metadata_list else {}]. *)
Definition metadata_at (metadata_list : option (list meta)) (i : nat)
    : outcome meta :=
  match metadata_list with
  | None | Some [] => Ok []
  | Some ml => match ml !! i with
               | Some m => Ok m
               | None => Raise IndexError
               end
  end.

(** The loop [for i, (img_id, filename) in enumerate(zip(...))] of
    [add_vectors], from position [i] on. *)
Fixpoint add_loop (start_idx i : nat) (pairs : list (string * string))
    (metadata_list : option (list meta)) (s : VectorStore) : add_result :=
  match pairs with
  | [] => Added s
  | (img_id, fname) :: pairs' =>
      let idx := (start_idx + i)%nat in
      let s := {| dimension := dimension s; index := index s;
                  images := images s;
                  id_to_idx := <[img_id := idx]> (id_to_idx s) |} in
      match metadata_at metadata_list i with
      | Ok m =>
          let s := {| dimension := dimension s; index := index s;
                      images := images s ++
                        [{| image_id := img_id; filename := fname;
                            idx := idx; metadata := m |}];
                      id_to_idx := id_to_idx s |} in
          add_loop start_idx (S i) pairs' metadata_list s
      | Raise e => Failed e s
      | NotANumber => AddedNaN
      end
  end.

(** Row-wise [vectors / norms]. *)
Fixpoint unit_rows (rows : list vec) : outcome (list vec) :=
  match rows with
  | [] => Ok []
  | r :: rows' =>
      r' ← unit_scale r;
      rows'' ← unit_rows rows';
      mret (r' :: rows'')
  end.

(** [VectorStore.add_vectors].  The row-wise division keeps the shape of
    the array, so the engine's assertion on the dimension is decided by the
    input and raises whether or not the division produced NaN. *)
Definition add_vectors (self : VectorStore) (vectors : ndarray)
    (image_ids filenames : list string) (metadata_list : option (list meta))
    : add_result :=
  let rows := match vectors with Array1 v => [v] | Array2 rows => rows end in
  (* index.add asserts that the rows have the index's dimension *)
  if forallb (fun r => Nat.eqb (length r) (dimension self)) rows then
    match unit_rows rows with
    | NotANumber => AddedNaN
    | Raise e => Failed e self
    | Ok rows =>
        let start_idx := ntotal (index self) in
        let s := {| dimension := dimension self;
                    index := index self ++ rows;
                    images := images self;
                    id_to_idx := id_to_idx self |} in
        add_loop start_idx 0 (zip image_ids filenames) metadata_list s
    end
  else Failed AssertionError self.

(** The loop over [zip(scores[0], indices[0])] of [search]. *)
Fixpoint collect_hits (imgs : list ImageData) (hits : list (R * Z))
    : list string * list R * list ImageData :=
  match hits with
  | [] => ([], [], [])
  | (score, i) :: hits' =>
      let '(image_ids, similarities, metadata_list) :=
        collect_hits imgs hits' in
      if bool_decide (0 <= i)%Z && bool_decide (i < Z.of_nat (length imgs))%Z
      then match imgs !! Z.to_nat i with
           | Some img_data =>
               (image_id img_data :: image_ids, score :: similarities,
                img_data :: metadata_list)
           | None => (image_ids, similarities, metadata_list)
           end
      else (image_ids, similarities, metadata_list)
  end.

(** [VectorStore.search]; [top_k] is any integer.  The division of the
    query by its norm never raises: for a query of zero norm it yields NaN
    in every entry, and the NaN query goes on to the engine.  The engine's
    [search] first asserts [d == self.d] and [k > 0]; on a NaN query no
    inner product compares with anything, so every label it returns is -1
    and the loop keeps none of them. *)
Definition search (self : VectorStore) (query_vector : vec) (top_k : Z)
    : outcome (list string * list R * list ImageData) :=
  if Nat.eqb (ntotal (index self)) 0 then Ok ([], [], [])
  else
    let query := unit_scale query_vector in
    let top_k := Z.min top_k (Z.of_nat (ntotal (index self))) in
    if negb (Nat.eqb (length query_vector) (dimension self))
    then Raise AssertionError
    else if (top_k <=? 0)%Z then Raise AssertionError
    else
      match query with
      | Ok query =>
          Ok (collect_hits (images self)
                (index_search (index self) query (Z.to_nat top_k)))
      | NotANumber => Ok ([], [], [])
      | Raise e => Raise e
      end.

(** ** The range of float32

    [search] casts its query with [astype(np.float32)] and computes the
    norm and the division in that type; the definition above reads these
    steps over the real numbers.  This section reads them with the range
    of float32.  A real number is kept exactly while its magnitude is
    inside the range (rounding inside the range is not modelled); at the
    two ends the result of an operation follows IEEE 754 with rounding to
    nearest: a magnitude of at least 2^128 - 2^103 becomes an infinity, a
    magnitude of at most 2^-150 becomes zero. *)










(** [VectorStore.get_vector]. *)
Definition get_vector (self : VectorStore) (img_id : string)
    : outcome (option vec) :=
  match id_to_idx self !! img_id with
  | None => Ok None
  | Some i => v ← index_reconstruct (index self) i; mret (Some v)
  end.

(** [VectorStore.get_vectors]. *)
Fixpoint get_vectors (self : VectorStore) (image_ids : list string)
    : outcome (list vec) :=
  match image_ids with
  | [] => Ok []
  | img_id :: image_ids' =>
      vector ← get_vector self img_id;
      vectors ← get_vectors self image_ids';
      mret (match vector with
            | Some v => v :: vectors
            | None => vectors
            end)
  end.

(** [VectorStore.get_all_vectors]. *)
Definition get_all_vectors (self : VectorStore) : list vec := index self.

(** [VectorStore.total_images]. *)
Definition total_images (self : VectorStore) : nat := ntotal (index self).

(** [VectorStore.clear]. *)
Definition clear (self : VectorStore) : VectorStore :=
  {| dimension := dimension self; index := []; images := [];
     id_to_idx := ∅ |}.

(** ** session_manager.py *)

Record SearchIteration : Type := mkSearchIteration {
  iteration : nat;
  query_vector : vec;
  query_type : string;
  results : list string;
  positive_feedback : list string;
  negative_feedback : list string;
  text_feedback : option string;
  timestamp : Z
}.

Record Session : Type := mkSession {
  session_id : string;
  created_at : Z;
  iterations : list SearchIteration
}.

(** [Session.current_iteration]. *)
Definition current_iteration (s : Session) : nat := length (iterations s).

(** [Session.current_query_vector]. *)
Definition current_query_vector (s : Session) : option vec :=
  query_vector <$> last (iterations s).

(** [Session.get_all_query_vectors]. *)
Definition get_all_query_vectors (s : Session) : list vec :=
  map query_vector (iterations s).

Record SessionManager : Type := mkSessionManager {
  sessions : gmap string Session
}.

(** [SessionManager.create_session]; [new_id] is the value of
    [str(uuid.uuid4())] and [now] the clock reading. *)
Definition create_session (self : SessionManager) (new_id : string) (now : Z)
    : SessionManager * string :=
  ({| sessions := <[new_id := {| session_id := new_id; created_at := now;
                                 iterations := [] |}]> (sessions self) |},
   new_id).

(** [SessionManager.get_session]. *)
Definition get_session (self : SessionManager) (sid : string)
    : option Session :=
  sessions self !! sid.

(** [SessionManager.add_iteration]. *)
Definition add_iteration (self : SessionManager) (sid : string)
    (qv : vec) (qtype : string) (res : list string)
    (positive negative : option (list string)) (text : option string)
    (now : Z) : outcome (SessionManager * nat) :=
  match sessions self !! sid with
  | None => Raise ValueError
  | Some session =>
      let it := {| iteration := current_iteration session + 1;
                   query_vector := qv;
                   query_type := qtype;
                   results := res;
                   positive_feedback := default [] positive;
                   negative_feedback := default [] negative;
                   text_feedback := text;
                   timestamp := now |} in
      let session := {| session_id := session_id session;
                        created_at := created_at session;
                        iterations := iterations session ++ [it] |} in
      Ok ({| sessions := <[sid := session]> (sessions self) |}, iteration it)
  end.

(** The three assignments to [last] in [update_last_iteration_feedback]. *)
Definition with_feedback (positive_ids negative_ids : list string)
    (text : option string) (it : SearchIteration) : SearchIteration :=
  {| iteration := iteration it;
     query_vector := query_vector it;
     query_type := query_type it;
     results := results it;
     positive_feedback := positive_ids;
     negative_feedback := negative_ids;
     text_feedback := text;
     timestamp := timestamp it |}.

(** [SessionManager.update_last_iteration_feedback]. *)
Definition update_last_iteration_feedback (self : SessionManager)
    (sid : string) (positive_ids negative_ids : list string)
    (text : option string) : SessionManager :=
  match sessions self !! sid with
  | None => self
  | Some session =>
      match last (iterations session) with
      | None => self
      | Some _ =>
          let its := iterations session in
          let session := {| session_id := session_id session;
                            created_at := created_at session;
                            iterations :=
                              alter (with_feedback positive_ids negative_ids
                                       text)
                                    (length its - 1)%nat its |} in
          {| sessions := <[sid := session]> (sessions self) |}
      end
  end.

(** One entry of the list returned by [get_query_vectors_2d]. *)
Record Point2D : Type := mkPoint2D {
  x : R;
  y : R;
  point_iteration : nat
}.

(** The dimensionality reducer, external: [reducer fit_on vectors] stands
    for [PCA(n_components=2)] fitted on [fit_on] and applied to
    [vectors]. *)
Definition Reducer : Type := list vec -> list vec -> list (R * R).

(** [SessionManager.get_query_vectors_2d]. *)
Definition get_query_vectors_2d (pca : Reducer) (self : SessionManager)
    (sid : string) (reference_vectors : option (list vec)) : list Point2D :=
  match sessions self !! sid with
  | None => []
  | Some session =>
      match iterations session with
      | [] => []
      | _ =>
          let query_vectors := get_all_query_vectors session in
          if bool_decide (length query_vectors < 2)%nat
          then [{| x := 0.0; y := 0.0; point_iteration := 1 |}]
          else
            let all_vectors :=
              if has_rows reference_vectors
              then query_vectors ++ rows_of reference_vectors
              else query_vectors in
            let projected := pca all_vectors query_vectors in
            imap (fun i '(px, py) =>
                    {| x := px; y := py; point_iteration := (i + 1)%nat |})
                 projected
      end
  end.

(** [SessionManager.get_or_create_session]. *)
Definition get_or_create_session (self : SessionManager)
    (sid : option string) (new_id : string) (now : Z)
    : SessionManager * string :=
  match sid with
  | Some s =>
      if negb (String.eqb s "") && bool_decide (is_Some (sessions self !! s))
      then (self, s)
      else create_session self new_id now
  | None => create_session self new_id now
  end.

(** ** models.py *)

Inductive FeedbackType : Type :=
  | POSITIVE
  | NEGATIVE.

Record FeedbackItem : Type := mkFeedbackItem {
  item_image_id : string;
  feedback : FeedbackType
}.

(** The request models validate [top_k] with [ge=1]: a request only exists
    with a positive count. *)
Record TextSearchRequest : Type := mkTextSearchRequest {
  ts_query : string;
  ts_top_k : positive;
  ts_session_id : option string
}.

Record RelevanceFeedbackRequest : Type := mkRelevanceFeedbackRequest {
  rf_session_id : string;
  rf_feedback_items : list FeedbackItem;
  rf_text_feedback : option string;
  rf_top_k : positive
}.

Record PseudoFeedbackRequest : Type := mkPseudoFeedbackRequest {
  pf_session_id : string;
  pf_top_m : Z;
  pf_top_k : positive
}.

Record SearchResponse : Type := mkSearchResponse {
  resp_session_id : string;
  resp_iteration : nat;
  resp_results : list string * list R * list ImageData;
  resp_query_vectors : list Point2D;
  resp_total_images : nat
}.

(** ** main.py *)

(** The two global singletons the handlers work on. *)
Record App : Type := mkApp {
  vector_store : VectorStore;
  session_manager : SessionManager
}.

(** The embedding oracle [encoder.encode_text], external. *)
Definition Encoder : Type := string -> vec.

(** [create_search_response]. *)
Definition create_search_response (pca : Reducer) (app : App) (sid : string)
    (it : nat) (found : list string * list R * list ImageData)
    : SearchResponse :=
  {| resp_session_id := sid;
     resp_iteration := it;
     resp_results := found;
     resp_query_vectors :=
       get_query_vectors_2d pca (session_manager app) sid None;
     resp_total_images := total_images (vector_store app) |}.

(** Truthiness of an optional string. *)
Definition truthy (s : option string) : bool :=
  match s with
  | Some s => negb (String.eqb s "")
  | None => false
  end.

Definition is_positive (f : FeedbackItem) : bool :=
  match feedback f with POSITIVE => true | NEGATIVE => false end.

Definition is_negative (f : FeedbackItem) : bool :=
  match feedback f with POSITIVE => false | NEGATIVE => true end.

(** [search_by_text].  The session is created before the search runs, so
    the state is returned also when the search raises. *)
Definition search_by_text (encode_text : Encoder) (pca : Reducer) (app : App)
    (request : TextSearchRequest) (new_id : string) (now : Z)
    : App * outcome SearchResponse :=
  let '(sm, sid) :=
    get_or_create_session (session_manager app) (ts_session_id request)
      new_id now in
  let app := {| vector_store := vector_store app; session_manager := sm |} in
  let qv := encode_text (ts_query request) in
  match search (vector_store app) qv (Z.pos (ts_top_k request)) with
  | Ok found =>
      match add_iteration sm sid qv "text" (fst (fst found)) None None None
              now with
      | Ok (sm, it) =>
          let app :=
            {| vector_store := vector_store app; session_manager := sm |} in
          (app, Ok (create_search_response pca app sid it found))
      | Raise e => (app, Raise e)
      | NotANumber => (app, NotANumber)
      end
  | Raise e => (app, Raise e)
  | NotANumber => (app, NotANumber)
  end.

(** [vector_store.get_vectors(ids) if ids else None]. *)
Definition vectors_if_any (vs : VectorStore) (ids : list string)
    : outcome (option (list vec)) :=
  match ids with
  | [] => Ok None
  | _ => vectors ← get_vectors vs ids; mret (Some vectors)
  end.

(** [x if x is not None and len(x) > 0 else None]. *)
Definition rows_or_none (x : option (list vec)) : option (list vec) :=
  if has_rows x then x else None.

(** The refined query of [relevance_feedback]: Rocchio on the image
    feedback, then the composer on the text feedback. *)
Definition feedback_refined_query (encode_text : Encoder)
    (current_query : vec) (positive_vectors negative_vectors
      : option (list vec)) (text : option string) : vec :=
  let refined_query := current_query in
  let has_image_feedback :=
    has_rows positive_vectors || has_rows negative_vectors in
  let refined_query :=
    if has_image_feedback
    then refine_query rocchio refined_query (rows_or_none positive_vectors)
           (rows_or_none negative_vectors) None default_text_weight
    else refined_query in
  if truthy text then
    let text_vector := encode_text (default "" text) in
    if has_image_feedback
    then compose query_composer refined_query text_vector (Some ADDITIVE)
    else compose query_composer refined_query text_vector (Some RESIDUAL)
  else refined_query.

(** [relevance_feedback]. *)
Definition relevance_feedback (encode_text : Encoder) (pca : Reducer)
    (app : App) (request : RelevanceFeedbackRequest) (now : Z)
    : outcome (App * SearchResponse) :=
  let sid := rf_session_id request in
  match get_session (session_manager app) sid with
  | None => Raise (HTTPException 404)
  | Some session =>
      match current_query_vector session with
      | None => Raise (HTTPException 400)
      | Some current_query =>
          if bool_decide (rf_feedback_items request = [])
             && negb (truthy (rf_text_feedback request))
          then Raise (HTTPException 400)
          else
            let positive_ids :=
              map item_image_id
                  (List.filter is_positive (rf_feedback_items request)) in
            let negative_ids :=
              map item_image_id
                  (List.filter is_negative (rf_feedback_items request)) in
            positive_vectors ← vectors_if_any (vector_store app) positive_ids;
            negative_vectors ← vectors_if_any (vector_store app) negative_ids;
            let refined_query :=
              feedback_refined_query encode_text current_query
                positive_vectors negative_vectors
                (rf_text_feedback request) in
            found ← search (vector_store app) refined_query
                      (Z.pos (rf_top_k request));
            let sm :=
              update_last_iteration_feedback (session_manager app) sid
                positive_ids negative_ids (rf_text_feedback request) in
            '(sm, it) ← add_iteration sm sid refined_query "feedback"
                          (fst (fst found)) (Some positive_ids)
                          (Some negative_ids) (rf_text_feedback request) now;
            let app :=
              {| vector_store := vector_store app; session_manager := sm |} in
            mret (app, create_search_response pca app sid it found)
      end
  end.

(** The refined query of the handler [pseudo_relevance_feedback]. *)
Definition pseudo_refined_query (vs : VectorStore) (session : Session)
    (current_query : vec) (top_m : Z) : outcome vec :=
  match last (iterations session) with
  | None => Raise (HTTPException 400)
  | Some last_it =>
      let last_results := slice_to top_m (results last_it) in
      top_vectors ← get_vectors vs last_results;
      if Nat.eqb (length top_vectors) 0 then Raise (HTTPException 400)
      else mret (pseudo_relevance_feedback rocchio current_query top_vectors
                   (Some top_m))
  end.

(** The handler [pseudo_relevance_feedback] of main.py. *)
Definition pseudo_feedback (pca : Reducer) (app : App)
    (request : PseudoFeedbackRequest) (now : Z)
    : outcome (App * SearchResponse) :=
  let sid := pf_session_id request in
  match get_session (session_manager app) sid with
  | None => Raise (HTTPException 404)
  | Some session =>
      match current_query_vector session with
      | None => Raise (HTTPException 400)
      | Some current_query =>
          refined_query ← pseudo_refined_query (vector_store app) session
                            current_query (pf_top_m request);
          found ← search (vector_store app) refined_query
                    (Z.pos (pf_top_k request));
          '(sm, it) ← add_iteration (session_manager app) sid refined_query
                        "pseudo_feedback" (fst (fst found)) None None None
                        now;
          let app :=
            {| vector_store := vector_store app; session_manager := sm |} in
          mret (app, create_search_response pca app sid it found)
      end
  end.

(** ** The session-manager calls a handler makes, in program order *)

Inductive SMCall : Type :=
  | call_update_last_iteration_feedback (sid : string)
      (positive_ids negative_ids : list string) (text : option string)
  | call_add_iteration (sid : string) (qv : vec) (qtype : string)
      (res : list string) (positive negative : option (list string))
      (text : option string).

Definition run_call (now : Z) (c : SMCall) (sm : SessionManager)
    : outcome SessionManager :=
  match c with
  | call_update_last_iteration_feedback sid p n t =>
      Ok (update_last_iteration_feedback sm sid p n t)
  | call_add_iteration sid qv qtype res p n t =>
      r ← add_iteration sm sid qv qtype res p n t now; mret (fst r)
  end.

Fixpoint run_calls (now : Z) (calls : list SMCall) (sm : SessionManager)
    : outcome SessionManager :=
  match calls with
  | [] => Ok sm
  | c :: calls' => sm' ← run_call now c sm; run_calls now calls' sm'
  end.

(** The mutating calls of [relevance_feedback], lines 244-260 of main.py. *)
Definition relevance_feedback_calls (request : RelevanceFeedbackRequest)
    (refined_query : vec) (image_ids : list string) : list SMCall :=
  let positive_ids :=
    map item_image_id (List.filter is_positive (rf_feedback_items request)) in
  let negative_ids :=
    map item_image_id (List.filter is_negative (rf_feedback_items request)) in
  [ call_update_last_iteration_feedback (rf_session_id request) positive_ids
      negative_ids (rf_text_feedback request);
    call_add_iteration (rf_session_id request) refined_query "feedback"
      image_ids (Some positive_ids) (Some negative_ids)
      (rf_text_feedback request) ].

(** The mutating calls of the pseudo-feedback handler, lines 303-308. *)
Definition pseudo_feedback_calls (request : PseudoFeedbackRequest)
    (refined_query : vec) (image_ids : list string) : list SMCall :=
  [ call_add_iteration (pf_session_id request) refined_query
      "pseudo_feedback" image_ids None None None ].

Definition is_backfill (c : SMCall) : bool :=
  match c with
  | call_update_last_iteration_feedback _ _ _ _ => true
  | call_add_iteration _ _ _ _ _ _ _ => false
  end.

Definition is_record (c : SMCall) : bool := negb (is_backfill c).

(** A backfill call occurs somewhere after a recording call. *)
Fixpoint backfill_after_record (calls : list SMCall) : bool :=
  match calls with
  | [] => false
  | c :: calls' =>
      (is_record c && existsb is_backfill calls')
      || backfill_after_record calls'
  end.

(** ** Reachable states of the session manager *)

Inductive sm_step : SessionManager -> SessionManager -> Prop :=
  | step_create_session sm new_id now :
      sm_step sm (fst (create_session sm new_id now))
  | step_add_iteration sm sid qv qtype res p n t now sm' i :
      add_iteration sm sid qv qtype res p n t now = Ok (sm', i) ->
      sm_step sm sm'
  | step_update_last_iteration_feedback sm sid p n t :
      sm_step sm (update_last_iteration_feedback sm sid p n t).

(** [SessionManager.__init__]. *)
Definition SessionManager_init : SessionManager := {| sessions := ∅ |}.

Definition sm_reachable (sm : SessionManager) : Prop :=
  rtc sm_step SessionManager_init sm.

(** ** Predicates used in the statements *)

(** The iterations of a session are numbered 1, 2, 3, ... *)
Definition numbered (s : Session) : Prop :=
  forall (i : nat) (it : SearchIteration),
    iterations s !! i = Some it -> iteration it = (i + 1)%nat.

(** Every session of the manager is numbered 1, 2, 3, ... *)
Definition all_numbered (sm : SessionManager) : Prop :=
  forall (sid : string) (s : Session),
    sessions sm !! sid = Some s -> numbered s.

(** [len(session.iterations)] for the session [sid], if there is one. *)
Definition iteration_count (sm : SessionManager) (sid : string)
    : option nat :=
  current_iteration <$> sessions sm !! sid.





(** The store's bookkeeping is in step with the engine: one entry of
    [metadata["images"]] per stored row. *)
Definition in_step (s : VectorStore) : Prop :=
  length (images s) = ntotal (index s).

(** The stores that well-formed inserts build from the empty store: every
    batch brings rows of non-zero norm, and one id and one filename per
    row.  (An insert of a zero row is not among them: the code stores a
    NaN row for it.) *)
Inductive store_built : VectorStore -> Prop :=
  | built_empty d :
      store_built {| dimension := d; index := []; images := [];
                     id_to_idx := ∅ |}
  | built_add s rows ids fnames ml s' :
      store_built s ->
      Forall (fun r => norm r <> 0) rows ->
      length rows = length ids ->
      length ids = length fnames ->
      add_vectors s (Array2 rows) ids fnames ml = Added s' ->
      store_built s'.

(** [id] occurs in the batch [ids] at position [i] and nowhere later. *)
Definition last_at (ids : list string) (id : string) (i : nat) : Prop :=
  ids !! i = Some id /\ forall j : nat, (i < j)%nat -> ids !! j <> Some id.

(** [metadata_list[i]] succeeds for every position below [n]. *)
Definition metadata_ok (metadata_list : option (list meta)) (n : nat) : Prop :=
  match metadata_list with
  | None | Some [] => True
  | Some ml => (n <= length ml)%nat
  end.

(** What an all-or-nothing insert does with a batch that repeats an id: an
    exception, and the store as it was. *)
Definition rejected_unchanged (s : VectorStore) (r : add_result) : Prop :=
  exists e : exn, r = Failed e s.

(** [clear] on a store of dimension [d]: the empty collection. *)
Definition empty_store (d : nat) : VectorStore :=
  {| dimension := d; index := []; images := []; id_to_idx := ∅ |}.

(** ** The refinement formula in the words of the specification *)

(** "If the result has zero norm, return it unnormalized." *)
Definition spec_normalize (v : vec) : vec :=
  if Req_dec_T (norm v) 0 then v else vdiv v (norm v).

(** refined = a.query; plus b.mean(relevant) when that set is non-empty;
    minus g.mean(nonRelevant) when that set is non-empty. *)
Definition spec_combination (a b g : R) (query : vec) (relevant non_relevant
    : list vec) : vec :=
  let refined := scale a query in
  let refined :=
    match relevant with
    | [] => refined
    | _ :: _ => vadd refined (scale b (mean_rows relevant))
    end in
  match non_relevant with
  | [] => refined
  | _ :: _ => vsub refined (scale g (mean_rows non_relevant))
  end.

(** "return normalize(refined)". *)
Definition spec_refine (a b g : R) (query : vec) (relevant non_relevant
    : list vec) : vec :=
  spec_normalize (spec_combination a b g query relevant non_relevant).

(** ** Concrete data for the examples *)

(** A reducer that keeps the first two coordinates. *)
Definition first_two : Reducer :=
  fun _ vectors => map (fun v : vec => (nth 0 v 0, nth 1 v 0)) vectors.

(** An encoder that maps every text to the first unit vector of the plane. *)
Definition unit_encoder : Encoder := fun _ => [1; 0].

(** A two-dimensional store holding the vector (1, 0) under the id "A". *)
Definition store_A : VectorStore :=
  {| dimension := 2;
     index := [[1; 0]];
     images := [{| image_id := "A"; filename := "a.jpg"; idx := 0;
                   metadata := [] |}];
     id_to_idx := {[ "A" := 0%nat ]} |}.

(** An iteration of a text search for (1, 0) that returned "A". *)
Definition first_iteration : SearchIteration :=
  {| iteration := 1; query_vector := [1; 0]; query_type := "text";
     results := ["A"]; positive_feedback := []; negative_feedback := [];
     text_feedback := None; timestamp := 0 |}.

Definition session_of (its : list SearchIteration) : Session :=
  {| session_id := "s"; created_at := 0; iterations := its |}.

Definition manager_of (its : list SearchIteration) : SessionManager :=
  {| sessions := {[ "s" := session_of its ]} |}.

(** A feedback request marking "A" as relevant. *)
Definition request_positive_A : RelevanceFeedbackRequest :=
  {| rf_session_id := "s";
     rf_feedback_items := [{| item_image_id := "A"; feedback := POSITIVE |}];
     rf_text_feedback := None;
     rf_top_k := 1 |}.

Definition app_A : App :=
  {| vector_store := store_A; session_manager := manager_of [first_iteration] |}.

(** ** Further functions of the cited files *)

(** The dictionary returned by [RocchioAlgorithm.compute_query_shift]. *)
Record QueryShift : Type := mkQueryShift {
  similarity : R;
  distance : R;
  shift_magnitude : R
}.

(** [RocchioAlgorithm.compute_query_shift]. *)
Definition compute_query_shift (original_query refined_query : vec)
    : QueryShift :=
  let similarity := dot original_query refined_query in
  let distance := norm (vsub refined_query original_query) in
  {| similarity := similarity; distance := distance;
     shift_magnitude := distance |}.



(** [Session.get_feedback_counts]: the values under "positive" and
    "negative". *)
Definition get_feedback_counts (s : Session) : nat * nat :=
  (foldr Nat.add 0%nat (map (fun it => length (positive_feedback it))
                            (iterations s)),
   foldr Nat.add 0%nat (map (fun it => length (negative_feedback it))
                            (iterations s))).

(** Clock readings are in microseconds, the resolution of [datetime]:
    [(now - created_at).total_seconds() / 3600 > max_age_hours]. *)
Definition older_than (max_age_hours now : Z) (s : Session) : Prop :=
  (3600000000 * max_age_hours < now - created_at s)%Z.

#[global] Instance older_than_dec max_age_hours now s :
  Decision (older_than max_age_hours now s).
Proof. unfold older_than. apply _. Defined.

(** [SessionManager.cleanup_old_sessions]. *)
Definition cleanup_old_sessions (self : SessionManager) (max_age_hours : Z)
    (now : Z) : SessionManager :=
  {| sessions :=
       filter (fun kv : string * Session =>
                 ~ older_than max_age_hours now (snd kv))
              (sessions self) |}.

(** The upload of [search_by_image], as far as the handler looks at it. *)
Record UploadFile : Type := mkUploadFile {
  content_type : option string;
  file_bytes : string
}.

(** The embedding oracle [encoder.encode_image] on bytes, external. *)
Definition ImageEncoder : Type := string -> vec.

(** [not image.content_type or not
    image.content_type.startswith("image/")]. *)
Definition not_an_image (image : UploadFile) : bool :=
  match content_type image with
  | None => true
  | Some ct => negb (String.prefix "image/" ct)
  end.

(** [search_by_image]; the content type is checked before the session is
    looked up or created.  [top_k] is a plain form field, any integer. *)
Definition search_by_image (encode_image : ImageEncoder) (pca : Reducer)
    (app : App) (image : UploadFile) (top_k : Z)
    (sid : option string) (new_id : string) (now : Z)
    : App * outcome SearchResponse :=
  if not_an_image image then (app, Raise (HTTPException 400))
  else
    let '(sm, sid) :=
      get_or_create_session (session_manager app) sid new_id now in
    let app := {| vector_store := vector_store app; session_manager := sm |} in
    let qv := encode_image (file_bytes image) in
    match search (vector_store app) qv top_k with
    | Ok found =>
        match add_iteration sm sid qv "image" (fst (fst found)) None None
                None now with
        | Ok (sm, it) =>
            let app :=
              {| vector_store := vector_store app; session_manager := sm |} in
            (app, Ok (create_search_response pca app sid it found))
        | Raise e => (app, Raise e)
        | NotANumber => (app, NotANumber)
        end
    | Raise e => (app, Raise e)
    | NotANumber => (app, NotANumber)
    end.

(** [models.SearchMode]. *)
Inductive SearchMode : Type :=
  | TEXT
  | IMAGE
  | HYBRID.

(** Validation of a string against the values of [SearchMode], as the
    model class does for a field declared with that type. *)
Definition SearchMode_of_string (s : string) : option SearchMode :=
  if String.eqb s "text" then Some TEXT
  else if String.eqb s "image" then Some IMAGE
  else if String.eqb s "hybrid" then Some HYBRID
  else None.

(** [models.SessionInfo]. *)
Record SessionInfo : Type := mkSessionInfo {
  info_session_id : string;
  info_iterations : nat;
  current_query_type : SearchMode;
  feedback_counts : nat * nat
}.

(** The ways [get_session_info] ends. *)
Inductive info_result : Type :=
  | InfoOk (info : SessionInfo)
  | InfoNotFound
  | InfoValidationError.

(** [get_session_info]: 404 for an unknown session; otherwise the
    [SessionInfo] is built from the type of the last iteration, "none"
    when there is none. *)
Definition get_session_info (app : App) (sid : string) : info_result :=
  match get_session (session_manager app) sid with
  | None => InfoNotFound
  | Some session =>
      let query_type :=
        match last (iterations session) with
        | Some it => query_type it
        | None => "none"
        end in
      match SearchMode_of_string query_type with
      | Some mode =>
          InfoOk {| info_session_id := sid;
                    info_iterations := current_iteration session;
                    current_query_type := mode;
                    feedback_counts := get_feedback_counts session |}
      | None => InfoValidationError
      end
  end.

(** ** Further predicates *)

(** A vector of norm 1, or the zero vector. *)
Definition unit_or_zero (v : vec) : Prop :=
  norm v = 1 \/ Forall (fun a => a = 0) v.

(** The temperature of the attention method is positive and not so small
    that [exp(|t_i| / temperature)] leaves the range of float32 for an
    entry of a unit vector: exp(64) is below 10^28. *)
Definition temperature_in_range (c : QueryComposer) : Prop :=
  / 64 <= attention_temperature c.

(** Every slot recorded for an id is the slot of a stored row. *)
Definition slots_valid (s : VectorStore) : Prop :=
  forall (id : string) (i : nat),
    id_to_idx s !! id = Some i -> (i < ntotal (index s))%nat.

(** Every stored row has unit norm. *)
Definition rows_unit (s : VectorStore) : Prop :=
  Forall (fun r => norm r = 1) (index s).


(** The ids among [ids] that the store has a slot for. *)
Definition known_ids (s : VectorStore) (ids : list string) : list string :=
  List.filter (fun id => bool_decide (is_Some (id_to_idx s !! id))) ids.

(** The first vector of a non-empty list plus the others, as
    [np.mean(rows, axis=0)] sums them. *)
Definition column_sum (rows : list vec) : vec :=
  match rows with
  | [] => []
  | r :: rs => foldl vadd r rs
  end.

(** * Theorems *)

(** ** Vector algebra *)

Lemma length_scale c v : length (scale c v) = length v.
Proof. apply length_map. Qed.

Lemma length_vdiv v d : length (vdiv v d) = length v.
Proof. apply length_map. Qed.

Lemma dot_nil_l v : dot [] v = 0.
Proof. reflexivity. Qed.

Lemma dot_cons a u b v : dot (a :: u) (b :: v) = a * b + dot u v.
Proof. reflexivity. Qed.

Lemma dot_self_nonneg v : 0 <= dot v v.
Proof.
  induction v as [|a v IH]; [apply Rle_refl|].
  rewrite dot_cons. nra.
Qed.

Lemma norm_nonneg v : 0 <= norm v.
Proof. apply sqrt_pos. Qed.

Lemma dot_self_zero v : dot v v = 0 -> Forall (fun a => a = 0) v.
Proof.
  induction v as [|a v IH]; intros H; [constructor|].
  rewrite dot_cons in H.
  pose proof (dot_self_nonneg v) as Hv.
  assert (Ha : a = 0) by nra.
  constructor; [exact Ha|]. apply IH. nra.
Qed.

Lemma norm_zero v : norm v = 0 -> Forall (fun a => a = 0) v.
Proof.
  intros H. apply dot_self_zero.
  apply sqrt_eq_0; [apply dot_self_nonneg | exact H].
Qed.

Lemma dot_scale_l c u v : dot (scale c u) v = c * dot u v.
Proof.
  revert v. induction u as [|a u IH]; intros [|b v];
    rewrite ?dot_nil_l; simpl; try (unfold dot; simpl; lra).
  change (dot (c * a :: scale c u) (b :: v) = c * dot (a :: u) (b :: v)).
  rewrite !dot_cons, IH. lra.
Qed.

Lemma dot_scale_r c u v : dot u (scale c v) = c * dot u v.
Proof.
  revert v. induction u as [|a u IH]; intros [|b v];
    rewrite ?dot_nil_l; simpl; try (unfold dot; simpl; lra).
  change (dot (a :: u) (c * b :: scale c v) = c * dot (a :: u) (b :: v)).
  rewrite !dot_cons, IH. lra.
Qed.

Lemma dot_vsub_l u w v :
  length u = length w -> dot (vsub u w) v = dot u v - dot w v.
Proof.
  revert w v. induction u as [|a u IH]; intros [|b w] [|c v] Hl;
    simpl in Hl; try discriminate; try (unfold dot; simpl; lra).
  change (dot (a - b :: vsub u w) (c :: v)
          = dot (a :: u) (c :: v) - dot (b :: w) (c :: v)).
  rewrite !dot_cons, IH by congruence. lra.
Qed.

Lemma norm_scale c v : 0 <= c -> norm (scale c v) = c * norm v.
Proof.
  intros Hc. unfold norm.
  rewrite dot_scale_l, dot_scale_r, <- Rmult_assoc.
  rewrite sqrt_mult; [|nra|apply dot_self_nonneg].
  fold (Rsqr c). rewrite sqrt_Rsqr by exact Hc. reflexivity.
Qed.


(** ** Rocchio refinement *)

Lemma guarded_division_is_spec_normalize v :
  (if Rlt_dec 0 (norm v) then vdiv v (norm v) else v) = spec_normalize v.
Proof.
  unfold spec_normalize. pose proof (norm_nonneg v) as Hn.
  destruct (Rlt_dec 0 (norm v)), (Req_dec_T (norm v) 0); try reflexivity; lra.
Qed.

Lemma has_rows_cases (x : option (list vec)) :
  (has_rows x = false /\ rows_of x = [])
  \/ (has_rows x = true /\ exists r rs, rows_of x = r :: rs).
Proof.
  destruct x as [[|r rs]|]; simpl; [left; done|right|left; done].
  split; [reflexivity|eauto].
Qed.

Lemma refine_query_spec self q rel nonrel w :
  refine_query self q rel nonrel None w
  = spec_refine (alpha self) (beta self) (gamma self) q
      (rows_of rel) (rows_of nonrel).
Proof.
  unfold refine_query, spec_refine, spec_combination.
  rewrite guarded_division_is_spec_normalize.
  destruct (has_rows_cases rel) as [[-> ->]|[-> (r & rs & ->)]],
           (has_rows_cases nonrel) as [[-> ->]|[-> (r' & rs' & ->)]];
    reflexivity.
Qed.

(** C1: without a text modification, [refine_query] is the specification's
    formula: alpha.query, plus beta times the mean of the relevant vectors
    when there are any, minus gamma times the mean of the non-relevant
    vectors when there are any, then normalized; when that combination has
    norm zero it is the zero vector and is returned as it is; and with no
    relevant and no non-relevant vectors (absent or empty) the result is
    normalize(alpha.query), for every query. *)
Theorem rocchio_refine_query_formula :
  forall (self : RocchioAlgorithm) (q : vec) (rel nonrel : option (list vec))
         (w : R),
    let combination :=
      spec_combination (alpha self) (beta self) (gamma self) q
        (rows_of rel) (rows_of nonrel) in
    refine_query self q rel nonrel None w = spec_normalize combination
    /\ (norm combination = 0 ->
        refine_query self q rel nonrel None w = combination
        /\ Forall (fun a => a = 0) combination)
    /\ (norm combination <> 0 ->
        refine_query self q rel nonrel None w
        = vdiv combination (norm combination))
    /\ refine_query self q None None None w
       = spec_normalize (scale (alpha self) q)
    /\ refine_query self q (Some []) (Some []) None w
       = spec_normalize (scale (alpha self) q).
Proof.
  intros self q rel nonrel w combination. subst combination.
  pose proof (refine_query_spec self q rel nonrel w) as Hspec.
  unfold spec_refine in Hspec.
  set (c := spec_combination _ _ _ _ _ _) in *.
  split; [exact Hspec|]. split; [|split; [|split]].
  - intros Hz. split; [|apply norm_zero; exact Hz].
    rewrite Hspec. unfold spec_normalize.
    destruct (Req_dec_T (norm c) 0); [reflexivity|contradiction].
  - intros Hnz. rewrite Hspec. unfold spec_normalize.
    destruct (Req_dec_T (norm c) 0); [contradiction|reflexivity].
  - apply (refine_query_spec self q None None w).
  - apply (refine_query_spec self q (Some []) (Some []) w).
Qed.

(** ** Query composition *)

Lemma norm_one_dot v : norm v = 1 -> dot v v = 1.
Proof.
  unfold norm. intros H.
  rewrite <- (sqrt_sqrt (dot v v)) by apply dot_self_nonneg.
  rewrite H. lra.
Qed.

Lemma vdiv_as_scale v d : vdiv v d = scale (/ d) v.
Proof. unfold vdiv, scale. apply map_ext. intros a. unfold Rdiv. lra. Qed.

Lemma norm_normalize v : 0 < norm v -> norm (_normalize v) = 1.
Proof.
  intros H. unfold _normalize.
  destruct (Rlt_dec 0 (norm v)); [|contradiction].
  rewrite vdiv_as_scale, norm_scale.
  - field. lra.
  - left. apply Rinv_0_lt_compat. exact H.
Qed.

Lemma length_normalize v : length (_normalize v) = length v.
Proof.
  unfold _normalize. destruct (Rlt_dec 0 (norm v)); [apply length_vdiv|done].
Qed.

Lemma residual_dot_zero (q t : vec) :
  length t = length q -> norm q = 1 -> dot (residual_of q t) q = 0.
Proof.
  intros Hlen Hunit. unfold residual_of.
  rewrite dot_vsub_l by (rewrite length_scale; exact Hlen).
  rewrite dot_scale_l, (norm_one_dot q Hunit). lra.
Qed.

(** C9: in the residual method the injected component, the text vector
    minus its projection (t.q)q on a unit-norm query q, has dot product
    zero with q; it is this component that is scaled by the residual
    strength and added to q. *)
Theorem residual_component_orthogonal :
  forall (self : QueryComposer) (q t : vec),
    length t = length q ->
    norm q = 1 ->
    dot (residual_of q t) q = 0
    /\ _residual_compose self q t
       = vadd q (scale (residual_strength self) (residual_of q t)).
Proof.
  intros self q t Hlen Hunit. split; [|reflexivity].
  apply residual_dot_zero; assumption.
Qed.

Lemma norm_1_0 : norm [1; 0] = 1.
Proof.
  unfold norm, dot, vmul, Rsum. simpl.
  replace (1 * 1 + (0 * 0 + 0)) with 1 by lra. apply sqrt_1.
Qed.

Lemma residual_component_orthogonal_witness :
  dot (residual_of [1; 0] [1; 1]) [1; 0] = 0
  /\ _residual_compose query_composer [1; 0] [1; 1]
     = vadd [1; 0]
         (scale (residual_strength query_composer) (residual_of [1; 0] [1; 1])).
Proof.
  apply (residual_component_orthogonal query_composer [1; 0] [1; 1]).
  - reflexivity.
  - exact norm_1_0.
Defined.

(** Inside [compose], where both inputs are normalized first, the residual
    injected for a query of non-zero norm is orthogonal to the normalized
    query. *)
Lemma compose_residual_orthogonal (q t : vec) :
  length t = length q ->
  0 < norm q ->
  dot (residual_of (_normalize q) (_normalize t)) (_normalize q) = 0.
Proof.
  intros Hlen Hq.
  apply residual_dot_zero.
  - rewrite !length_normalize. exact Hlen.
  - apply norm_normalize. exact Hq.
Qed.

Lemma clip_bounds lo hi a : lo <= hi -> lo <= clip lo hi a <= hi.
Proof.
  intros H. unfold clip.
  split.
  - apply Rmin_glb; [apply Rmax_r | exact H].
  - apply Rmin_r.
Qed.

(** The clamped attention weights lie in [0.5, 2.0]. *)
Lemma attention_weights_bounds (self : QueryComposer) (text : vec) :
  Forall (fun w => 0.5 <= w <= 2.0) (attention_weights_of self text).
Proof.
  unfold attention_weights_of. apply Forall_map, Forall_forall.
  intros w _. apply clip_bounds. lra.
Qed.

(** The influence values lie in [0.25, 1.0]: the map (w - 1)/2 + 0.5 sends
    the weight range [0.5, 2.0] there and no second clamp is applied. *)
Lemma text_influence_bounds (self : QueryComposer) (text : vec) :
  Forall (fun i => 0.25 <= i <= 1.0) (text_influence_of self text).
Proof.
  unfold text_influence_of. apply Forall_map.
  eapply Forall_impl; [apply attention_weights_bounds|].
  intros w Hw. simpl in *. lra.
Qed.

Lemma exp_1_gt_2 : 2 < exp 1.
Proof. pose proof (exp_ineq1 1 ltac:(lra)). lra. Qed.

Lemma clip_above lo hi a b : b < a -> b < hi -> b < clip lo hi a.
Proof.
  intros Ha Hh. unfold clip. apply Rmin_glb_lt; [|exact Hh].
  apply Rlt_le_trans with a; [exact Ha | apply Rmax_l].
Qed.

(** C4 (failing input): for the unit text vector (1, 0, 0) and temperature
    1.0 the first attention weight is 3e/(e+2), about 1.73, and the first
    influence value is about 0.86: above the 0.75 that the comment
    "Map to [0.25, 0.75]" in [_attention_compose] announces. *)
Theorem attention_influence_above_three_quarters :
  exists w i : R,
    attention_weights_of query_composer [1; 0; 0] !! 0%nat = Some w
    /\ 0.5 <= w <= 2.0
    /\ text_influence_of query_composer [1; 0; 0] !! 0%nat = Some i
    /\ i = (w - 1.0) / 2.0 + 0.5
    /\ 0.75 < i.
Proof.
  unfold text_influence_of, attention_weights_of.
  cbn [map length Rsum foldr attention_temperature query_composer].
  eexists _, _. split; [reflexivity|]. split; [apply clip_bounds; lra|].
  split; [reflexivity|]. split; [reflexivity|].
  rewrite Rabs_R1, Rabs_R0.
  replace (1 / 1.0) with 1 by lra. replace (0 / 1.0) with 0 by lra.
  rewrite exp_0. pose proof exp_1_gt_2 as He.
  set (e := exp 1) in *.
  assert (Hw : 3 / 2 < e / (e + (1 + (1 + 0))) * INR 3).
  { simpl. apply Rmult_lt_reg_r with (e + (1 + (1 + 0))); [lra|].
    field_simplify; lra. }
  pose proof (clip_above 0.5 2.0 _ (3 / 2) Hw ltac:(lra)).
  lra.
Qed.

(** ** The engine: sorting by score *)












(** ** The store: search *)




Lemma search_count k n :
  (0 < k)%Z -> Z.to_nat (Z.min k (Z.of_nat n)) = Nat.min (Z.to_nat k) n.
Proof. lia. Qed.

Lemma search_defined s q k :
  norm q <> 0 -> length q = dimension s -> (0 < k)%Z ->
  search s q k
  = if Nat.eqb (ntotal (index s)) 0 then Ok ([], [], [])
    else Ok (collect_hits (images s)
               (index_search (index s) (vdiv q (norm q))
                  (Nat.min (Z.to_nat k) (ntotal (index s))))).
Proof.
  intros Hnz Hlen Hk. unfold search, unit_scale.
  destruct (Nat.eqb_spec (ntotal (index s)) 0) as [|Hne]; [reflexivity|].
  rewrite Hlen, Nat.eqb_refl. cbn [negb].
  destruct (Z.leb_spec (Z.min k (Z.of_nat (ntotal (index s)))) 0) as [Hle|_];
    [lia|].
  destruct (Req_dec_T (norm q) 0); [contradiction|].
  rewrite (search_count k _ Hk). reflexivity.
Qed.

Lemma search_nonpositive_count s q k :
  (0 < total_images s)%nat -> (k <= 0)%Z ->
  search s q k = Raise AssertionError.
Proof.
  intros Htotal Hk. unfold search, total_images in *.
  destruct (Nat.eqb_spec (ntotal (index s)) 0) as [H0|_]; [lia|].
  destruct (negb (Nat.eqb (length q) (dimension s))); [reflexivity|].
  destruct (Z.leb_spec (Z.min k (Z.of_nat (ntotal (index s)))) 0) as [_|Hlt];
    [reflexivity|lia].
Qed.

Lemma search_zero_norm s q k :
  (0 < total_images s)%nat -> length q = dimension s -> (0 < k)%Z ->
  norm q = 0 ->
  search s q k = Ok ([], [], []).
Proof.
  intros Htotal Hlen Hk Hz. unfold search, unit_scale, total_images in *.
  destruct (Nat.eqb_spec (ntotal (index s)) 0) as [H0|_]; [lia|].
  rewrite Hlen, Nat.eqb_refl. cbn [negb].
  destruct (Z.leb_spec (Z.min k (Z.of_nat (ntotal (index s)))) 0) as [Hle|_];
    [lia|].
  destruct (Req_dec_T (norm q) 0); [reflexivity|contradiction].
Qed.

Lemma norm_0_0 : norm [0; 0] = 0.
Proof.
  unfold norm, dot, vmul, Rsum. simpl.
  replace (0 * 0 + (0 * 0 + 0)) with 0 by lra. apply sqrt_0.
Qed.




(** ** The store: search and the range of float32 *)






















(** ** The store: insertion *)

Lemma metadata_at_ok ml n i :
  metadata_ok ml n -> (i < n)%nat -> exists m, metadata_at ml i = Ok m.
Proof.
  destruct ml as [[|m0 ml]|]; simpl; eauto.
  intros Hn Hi. destruct i as [|i]; simpl; [eauto|].
  destruct (ml !! i) as [m|] eqn:Hm; [eauto|].
  apply lookup_ge_None in Hm. lia.
Qed.

Lemma last_at_cons_inv (id0 id : string) (ids : list string) (j : nat) :
  last_at (id0 :: ids) id j ->
  (j = 0%nat /\ id = id0 /\ id ∉ ids)
  \/ (exists j', j = S j' /\ last_at ids id j').
Proof.
  intros [Hj Hlater]. destruct j as [|j'].
  - left. simpl in Hj. injection Hj as <-. repeat split.
    intros Hin. apply list_elem_of_lookup in Hin as [k Hk].
    apply (Hlater (S k)); [lia|exact Hk].
  - right. exists j'. split; [reflexivity|]. split; [exact Hj|].
    intros k Hk. apply (Hlater (S k)). lia.
Qed.

(** The loop of [add_vectors] never looks at the ids already stored: it
    appends one entry per pair and overwrites the slot of each id. *)
Lemma add_loop_appends start pairs :
  forall (i : nat) (ml : option (list meta)) (s : VectorStore),
    metadata_ok ml (i + length pairs) ->
    exists s',
      add_loop start i pairs ml s = Added s'
      /\ dimension s' = dimension s
      /\ index s' = index s
      /\ map image_id (images s') = map image_id (images s) ++ map fst pairs
      /\ (forall id j, last_at (map fst pairs) id j ->
            id_to_idx s' !! id = Some (start + i + j)%nat)
      /\ (forall id, id ∉ map fst pairs ->
            id_to_idx s' !! id = id_to_idx s !! id).
Proof.
  induction pairs as [|[id0 fname] pairs IH]; intros i ml s Hml.
  - exists s. simpl. rewrite app_nil_r. repeat split.
    intros id j [Hj _]. destruct j; discriminate Hj.
  - simpl.
    destruct (metadata_at_ok ml (i + length ((id0, fname) :: pairs)) i Hml)
      as [m ->]; [simpl; lia|].
    match goal with
    | |- exists s', add_loop _ _ _ _ ?s1 = _ /\ _ =>
        destruct (IH (S i) ml s1) as (s' & Hs' & Hdim & Hidx & Himg & Hlast & Hother)
    end.
    { simpl in Hml. replace (S i + length pairs)%nat
        with (i + S (length pairs))%nat by lia. exact Hml. }
    simpl in Hdim, Hidx, Himg, Hother.
    exists s'. split; [exact Hs'|]. split; [exact Hdim|]. split; [exact Hidx|].
    split; [|split].
    + rewrite Himg, map_app, <- app_assoc. reflexivity.
    + intros id j Hj.
      apply last_at_cons_inv in Hj as [(-> & -> & Hnotin)|(j' & -> & Hj')].
      * rewrite Hother by exact Hnotin. rewrite lookup_insert_eq.
        f_equal. lia.
      * rewrite (Hlast id j' Hj'). f_equal. lia.
    + intros id Hnotin. apply not_elem_of_cons in Hnotin as [Hne Hnotin].
      rewrite Hother by exact Hnotin. apply lookup_insert_ne. congruence.
Qed.

Lemma unit_rows_ok rows :
  Forall (fun r => norm r <> 0) rows ->
  unit_rows rows = Ok (map (fun r => vdiv r (norm r)) rows).
Proof.
  induction 1 as [|r rows Hr Hrows IH]; simpl; [reflexivity|].
  unfold unit_scale. destruct (Req_dec_T (norm r) 0); [contradiction|].
  simpl. rewrite IH. reflexivity.
Qed.

Lemma forallb_dimension (d : nat) (rows : list vec) :
  Forall (fun r => length r = d) rows ->
  forallb (fun r => Nat.eqb (length r) d) rows = true.
Proof.
  induction 1 as [|r rows Hr Hrows IH]; simpl; [reflexivity|].
  rewrite Hr, Nat.eqb_refl, IH. reflexivity.
Qed.

Lemma fst_zip_same_length {A B} (l : list A) (k : list B) :
  length l = length k -> map fst (zip l k) = l.
Proof.
  revert k. induction l as [|a l IH]; intros [|b k] H; simpl in *;
    try discriminate; [reflexivity|].
  f_equal. apply IH. congruence.
Qed.

(** C2 (amended): [add_vectors] has no duplicate check.  Whatever ids are
    already stored and however often an id occurs in the batch, a batch of
    non-zero rows of the store's dimension, with as many filenames as ids
    and enough metadata, returns normally: every row is appended to the
    engine, one metadata entry is appended per id, and the slot of every
    id of the batch is overwritten with the slot of its last occurrence in
    the batch; the slots of ids outside the batch are kept. *)
Theorem add_vectors_overwrites_duplicate_ids :
  forall (s : VectorStore) (rows : list vec) (ids fnames : list string)
         (ml : option (list meta)),
    Forall (fun r => norm r <> 0) rows ->
    Forall (fun r => length r = dimension s) rows ->
    length ids = length fnames ->
    metadata_ok ml (length ids) ->
    exists s',
      add_vectors s (Array2 rows) ids fnames ml = Added s'
      /\ index s' = index s ++ map (fun r => vdiv r (norm r)) rows
      /\ map image_id (images s') = map image_id (images s) ++ ids
      /\ (forall id j, last_at ids id j ->
            id_to_idx s' !! id = Some (ntotal (index s) + j)%nat)
      /\ (forall id, id ∉ ids -> id_to_idx s' !! id = id_to_idx s !! id).
Proof.
  intros s rows ids fnames ml Hnz Hdim Hlen Hml.
  unfold add_vectors.
  rewrite (forallb_dimension _ rows Hdim), (unit_rows_ok rows Hnz).
  match goal with
  | |- exists s', add_loop ?st 0 ?ps ml ?s1 = _ /\ _ =>
      destruct (add_loop_appends st ps 0%nat ml s1)
        as (s' & Hs' & _ & Hidx & Himg & Hlast & Hother)
  end.
  { simpl. rewrite length_zip, <- Hlen, Nat.min_id. exact Hml. }
  rewrite (fst_zip_same_length ids fnames Hlen) in Himg, Hlast, Hother.
  simpl in Hidx, Himg, Hother.
  exists s'. repeat split; try assumption.
  intros id j Hj. rewrite (Hlast id j Hj). f_equal. lia.
Qed.

Lemma norm_0_1 : norm [0; 1] = 1.
Proof.
  unfold norm, dot, vmul, Rsum. simpl.
  replace (0 * 0 + (1 * 1 + 0)) with 1 by lra. apply sqrt_1.
Qed.

Lemma add_vectors_overwrites_duplicate_ids_witness :
  exists s',
    add_vectors store_A (Array2 [[0; 1]]) ["A"] ["b.jpg"] None = Added s'
    /\ index s' = index store_A ++ map (fun r => vdiv r (norm r)) [[0; 1]]
    /\ map image_id (images s') = map image_id (images store_A) ++ ["A"]
    /\ (forall id j, last_at ["A"] id j ->
          id_to_idx s' !! id = Some (ntotal (index store_A) + j)%nat)
    /\ (forall id, id ∉ ["A"] -> id_to_idx s' !! id = id_to_idx store_A !! id).
Proof.
  apply (add_vectors_overwrites_duplicate_ids store_A [[0; 1]] ["A"]
           ["b.jpg"] None).
  - repeat constructor. rewrite norm_0_1. lra.
  - repeat constructor.
  - reflexivity.
  - exact I.
Defined.

(** C2 (counterexample): the store already holds the id "A" in slot 0;
    inserting one more vector under the id "A" is not rejected: the call
    returns normally, the engine and the metadata list each have a second
    entry, and the slot of "A" is overwritten from 0 to 1. *)
Lemma duplicate_id_insert_is_accepted :
  id_to_idx store_A !! "A" = Some 0%nat
  /\ ~ rejected_unchanged store_A
         (add_vectors store_A (Array2 [[0; 1]]) ["A"] ["b.jpg"] None)
  /\ exists s',
       add_vectors store_A (Array2 [[0; 1]]) ["A"] ["b.jpg"] None = Added s'
       /\ total_images s' = 2%nat
       /\ map image_id (images s') = ["A"; "A"]
       /\ id_to_idx s' !! "A" = Some 1%nat.
Proof.
  assert (Hrun : exists s',
       add_vectors store_A (Array2 [[0; 1]]) ["A"] ["b.jpg"] None = Added s'
       /\ total_images s' = 2%nat
       /\ map image_id (images s') = ["A"; "A"]
       /\ id_to_idx s' !! "A" = Some 1%nat).
  { unfold add_vectors.
    change (forallb _ [[0; 1]]) with true. cbn [unit_rows]. unfold unit_scale.
    destruct (Req_dec_T (norm [0; 1]) 0) as [Hz|_];
      [rewrite norm_0_1 in Hz; lra|].
    cbn. eexists. split; [reflexivity|]. repeat split. }
  split; [reflexivity|]. split; [|exact Hrun].
  destruct Hrun as (s' & -> & _). intros [e He]. discriminate He.
Qed.

(** Stores built by well-formed inserts keep the bookkeeping in step with
    the engine: the hypothesis of the search theorem is an invariant. *)
Lemma empty_store_in_step d : in_step (empty_store d).
Proof. reflexivity. Qed.

Lemma length_unit_rows rows rows' :
  unit_rows rows = Ok rows' -> length rows' = length rows.
Proof.
  revert rows'. induction rows as [|r rows IH]; simpl; intros rows' H.
  - injection H as <-. reflexivity.
  - destruct (unit_scale r); try discriminate H. simpl in H.
    destruct (unit_rows rows) as [rows''| |]; try discriminate H.
    simpl in H. injection H as <-. simpl. rewrite (IH rows''); reflexivity.
Qed.

Lemma add_loop_lengths start pairs :
  forall (i : nat) (ml : option (list meta)) (s s' : VectorStore),
    add_loop start i pairs ml s = Added s' ->
    length (images s') = (length (images s) + length pairs)%nat
    /\ index s' = index s.
Proof.
  induction pairs as [|[id0 f] pairs IH]; intros i ml s s' Hrun; simpl in *.
  - injection Hrun as <-. split; [lia|reflexivity].
  - destruct (metadata_at ml i); try discriminate Hrun.
    apply IH in Hrun as [Hlen Hidx]. simpl in *.
    rewrite length_app in Hlen. simpl in Hlen. split; [lia|exact Hidx].
Qed.

Lemma add_vectors_in_step s rows ids fnames ml s' :
  in_step s ->
  length rows = length ids ->
  length ids = length fnames ->
  add_vectors s (Array2 rows) ids fnames ml = Added s' ->
  in_step s'.
Proof.
  unfold in_step, add_vectors, ntotal. intros Hstep Hrows Hlen Hrun.
  destruct (forallb (fun r => Nat.eqb (length r) (dimension s)) rows);
    [|discriminate Hrun].
  destruct (unit_rows rows) as [rows'| |] eqn:Hunit; try discriminate Hrun.
  apply length_unit_rows in Hunit.
  apply add_loop_lengths in Hrun as [Himg Hidx]. simpl in Himg, Hidx.
  rewrite Himg, Hidx, length_app, length_zip, <- Hlen, Nat.min_id. lia.
Qed.

(** ** The session manager *)

Lemma numbered_nil sid t : numbered {| session_id := sid; created_at := t;
                                       iterations := [] |}.
Proof. intros i it Hi. destruct i; discriminate Hi. Qed.

Lemma numbered_snoc sid t (its : list SearchIteration) (it : SearchIteration) :
  numbered {| session_id := sid; created_at := t; iterations := its |} ->
  iteration it = (length its + 1)%nat ->
  numbered {| session_id := sid; created_at := t; iterations := its ++ [it] |}.
Proof.
  intros Hnum Hit i it' Hi. simpl in *.
  apply lookup_app_Some in Hi as [Hi|[Hge Hi]].
  - apply (Hnum i it' Hi).
  - destruct (i - length its)%nat as [|k] eqn:Hk; simpl in Hi.
    + injection Hi as <-. rewrite Hit. lia.
    + destruct k; discriminate Hi.
Qed.

Lemma numbered_alter sid t (its : list SearchIteration) f k :
  (forall it, iteration (f it) = iteration it) ->
  numbered {| session_id := sid; created_at := t; iterations := its |} ->
  numbered {| session_id := sid; created_at := t;
              iterations := alter f k its |}.
Proof.
  intros Hf Hnum i it Hi. simpl in *.
  rewrite list_lookup_alter in Hi. case_decide as Hk.
  - apply fmap_Some in Hi as (it0 & H0 & ->). subst k.
    rewrite Hf. apply (Hnum i it0 H0).
  - apply (Hnum i it Hi).
Qed.

Lemma session_eta (s : Session) :
  s = {| session_id := session_id s; created_at := created_at s;
         iterations := iterations s |}.
Proof. destruct s. reflexivity. Qed.

Lemma create_session_numbered sm new_id now :
  all_numbered sm -> all_numbered (fst (create_session sm new_id now)).
Proof.
  intros Hall sid s. simpl. rewrite lookup_insert.
  case_decide as Heq.
  - intros [= <-]. apply numbered_nil.
  - apply Hall.
Qed.

Lemma add_iteration_numbered sm sid qv qtype res p n t now sm' i :
  all_numbered sm ->
  add_iteration sm sid qv qtype res p n t now = Ok (sm', i) ->
  all_numbered sm'.
Proof.
  intros Hall. unfold add_iteration.
  destruct (sessions sm !! sid) as [session|] eqn:Hs; [|discriminate].
  intros [= <- _] sid' s'. simpl. rewrite lookup_insert.
  case_decide as Heq; [|apply Hall].
  intros [= <-]. apply numbered_snoc; [|reflexivity].
  rewrite <- session_eta. apply (Hall sid session Hs).
Qed.

Lemma update_last_iteration_feedback_numbered sm sid p n t :
  all_numbered sm ->
  all_numbered (update_last_iteration_feedback sm sid p n t).
Proof.
  intros Hall. unfold update_last_iteration_feedback.
  destruct (sessions sm !! sid) as [session|] eqn:Hs; [|exact Hall].
  destruct (last (iterations session)); [|exact Hall].
  intros sid' s'. simpl. rewrite lookup_insert.
  case_decide as Heq; [|apply Hall].
  intros [= <-]. apply numbered_alter; [reflexivity|].
  rewrite <- session_eta. apply (Hall sid session Hs).
Qed.

Lemma sm_step_numbered sm sm' :
  sm_step sm sm' -> all_numbered sm -> all_numbered sm'.
Proof.
  destruct 1; intros Hall.
  - apply create_session_numbered, Hall.
  - eapply add_iteration_numbered; eassumption.
  - apply update_last_iteration_feedback_numbered, Hall.
Qed.

Lemma reachable_numbered sm : sm_reachable sm -> all_numbered sm.
Proof.
  unfold sm_reachable. intros Hreach.
  assert (Hinit : all_numbered SessionManager_init).
  { intros sid s Hs. simpl in Hs. rewrite lookup_empty in Hs. discriminate Hs. }
  revert Hinit. induction Hreach as [|sm0 sm1 sm2 Hstep _ IH]; [done|].
  intros H0. apply IH. eapply sm_step_numbered; eassumption.
Qed.

Lemma update_last_iteration_feedback_count sm sid p n t sid' :
  iteration_count (update_last_iteration_feedback sm sid p n t) sid'
  = iteration_count sm sid'.
Proof.
  unfold iteration_count, update_last_iteration_feedback.
  destruct (sessions sm !! sid) as [session|] eqn:Hs; [|reflexivity].
  destruct (last (iterations session)); [|reflexivity].
  simpl. rewrite lookup_insert. case_decide as Heq; [|reflexivity].
  subst sid'. rewrite Hs. simpl. unfold current_iteration. simpl.
  rewrite length_alter. reflexivity.
Qed.

(** C8: in every state the session manager can reach from its initial
    state by [create_session], [add_iteration] and
    [update_last_iteration_feedback] calls, in any order and on any
    sessions, the i-th iteration (0-based) of every session carries the
    number i+1; and [update_last_iteration_feedback] leaves the number of
    iterations of every session as it was. *)
Theorem session_iterations_numbered_contiguously :
  forall sm : SessionManager,
    sm_reachable sm ->
    (forall (sid : string) (s : Session) (i : nat) (it : SearchIteration),
       sessions sm !! sid = Some s ->
       iterations s !! i = Some it ->
       iteration it = (i + 1)%nat)
    /\ (forall (sid : string) (p n : list string) (t : option string)
               (sid' : string),
          iteration_count (update_last_iteration_feedback sm sid p n t) sid'
          = iteration_count sm sid').
Proof.
  intros sm Hreach. split.
  - intros sid s i it Hs Hi.
    apply (reachable_numbered sm Hreach sid s Hs i it Hi).
  - intros. apply update_last_iteration_feedback_count.
Qed.

Lemma manager_of_first_reachable : sm_reachable (manager_of [first_iteration]).
Proof.
  unfold sm_reachable.
  eapply rtc_l; [apply (step_create_session _ "s" 0)|].
  eapply rtc_l; [|apply rtc_refl].
  eapply (step_add_iteration _ "s" [1; 0] "text" ["A"] None None None 0 _ 1%nat).
  unfold add_iteration, create_session, SessionManager_init, manager_of.
  simpl. rewrite lookup_insert_eq. simpl.
  rewrite insert_insert_eq, insert_empty. reflexivity.
Qed.

Lemma session_iterations_numbered_contiguously_witness :
  (forall (sid : string) (s : Session) (i : nat) (it : SearchIteration),
     sessions (manager_of [first_iteration]) !! sid = Some s ->
     iterations s !! i = Some it ->
     iteration it = (i + 1)%nat)
  /\ (forall (sid : string) (p n : list string) (t : option string)
             (sid' : string),
        iteration_count
          (update_last_iteration_feedback (manager_of [first_iteration])
             sid p n t) sid'
        = iteration_count (manager_of [first_iteration]) sid').
Proof.
  apply (session_iterations_numbered_contiguously
           (manager_of [first_iteration])).
  exact manager_of_first_reachable.
Defined.

(** ** The query trajectory *)

Lemma origin_literal : 0.0 = 0.
Proof. lra. Qed.

(** C6 (counterexample): a session that exists and has no iteration, so
    fewer than two, gets the empty list, not a single point at the
    origin. *)
Lemma trajectory_of_empty_session_is_empty :
  sessions (manager_of []) !! "s" = Some (session_of [])
  /\ (current_iteration (session_of []) < 2)%nat
  /\ get_query_vectors_2d first_two (manager_of []) "s" None = []
  /\ length (get_query_vectors_2d first_two (manager_of []) "s" None) <> 1%nat.
Proof.
  assert (H : get_query_vectors_2d first_two (manager_of []) "s" None = []).
  { reflexivity. }
  split; [reflexivity|]. split; [unfold current_iteration; simpl; lia|].
  split; [exact H|]. rewrite H. discriminate.
Qed.

(** C6 (amended): for a session without iterations the projection is the
    empty list; for a session with exactly one iteration it is the single
    point (0, 0) numbered 1, whatever the reducer is; for a session with
    two or more iterations it is the reducer's answer for the session's
    query vectors, fitted on them together with the reference vectors if
    there are any, the i-th point (0-based) numbered i+1, so that a
    reducer returning one point per input vector gives one point per
    iteration, in iteration order. *)
Theorem query_trajectory_projection :
  forall (pca : Reducer) (sm : SessionManager) (sid : string)
         (refs : option (list vec)) (s : Session),
    sessions sm !! sid = Some s ->
    let qvs := get_all_query_vectors s in
    let fit_on := if has_rows refs then qvs ++ rows_of refs else qvs in
    let out := get_query_vectors_2d pca sm sid refs in
    (length (iterations s) = 0%nat -> out = [])
    /\ (length (iterations s) = 1%nat ->
        exists p, out = [p] /\ x p = 0 /\ y p = 0
                  /\ point_iteration p = 1%nat)
    /\ ((2 <= length (iterations s))%nat ->
        length (pca fit_on qvs) = length qvs ->
        length out = length (iterations s)
        /\ forall (i : nat) (it : SearchIteration),
             iterations s !! i = Some it ->
             exists px py,
               pca fit_on qvs !! i = Some (px, py)
               /\ out !! i = Some {| x := px; y := py;
                                     point_iteration := (i + 1)%nat |}).
Proof.
  intros pca sm sid refs s Hs qvs fit_on out.
  assert (Hlen : length qvs = length (iterations s)).
  { unfold qvs, get_all_query_vectors. apply length_map. }
  unfold out, get_query_vectors_2d. rewrite Hs.
  fold qvs. fold fit_on.
  destruct (iterations s) as [|it0 [|it1 its]] eqn:Hits.
  - split; [reflexivity|]. split; simpl; intros; lia.
  - rewrite bool_decide_eq_true_2 by (rewrite Hlen; simpl; lia).
    split; [discriminate|]. split; [|simpl; intros; lia].
    intros _. eexists. split; [reflexivity|]. simpl.
    repeat split; apply origin_literal.
  - rewrite bool_decide_eq_false_2 by (rewrite Hlen; simpl; lia).
    split; [discriminate|]. split; [discriminate|].
    intros _ Hpca. rewrite length_imap, Hpca, Hlen. split; [reflexivity|].
    intros i it Hi. apply lookup_lt_Some in Hi. rewrite <- Hlen, <- Hpca in Hi.
    apply lookup_lt_is_Some in Hi as [[px py] Hp].
    exists px, py. split; [exact Hp|].
    rewrite list_lookup_imap, Hp. reflexivity.
Qed.

Lemma query_trajectory_projection_witness :
  let s := session_of [first_iteration; first_iteration] in
  let sm := manager_of [first_iteration; first_iteration] in
  let qvs := get_all_query_vectors s in
  let out := get_query_vectors_2d first_two sm "s" None in
  (length (iterations s) = 0%nat -> out = [])
  /\ (length (iterations s) = 1%nat ->
      exists p, out = [p] /\ x p = 0 /\ y p = 0 /\ point_iteration p = 1%nat)
  /\ ((2 <= length (iterations s))%nat ->
      length (first_two qvs qvs) = length qvs ->
      length out = length (iterations s)
      /\ forall (i : nat) (it : SearchIteration),
           iterations s !! i = Some it ->
           exists px py,
             first_two qvs qvs !! i = Some (px, py)
             /\ out !! i = Some {| x := px; y := py;
                                   point_iteration := (i + 1)%nat |}).
Proof.
  apply (query_trajectory_projection first_two
           (manager_of [first_iteration; first_iteration]) "s" None
           (session_of [first_iteration; first_iteration])).
  reflexivity.
Defined.

Lemma trajectory_of_unknown_session pca sm sid refs :
  sessions sm !! sid = None -> get_query_vectors_2d pca sm sid refs = [].
Proof. intros H. unfold get_query_vectors_2d. rewrite H. reflexivity. Qed.

(** ** Pseudo-relevance feedback *)

Lemma slice_to_nonneg {A} (m : Z) (l : list A) :
  (0 <= m)%Z -> slice_to m l = take (Z.to_nat m) l.
Proof.
  intros Hm. unfold slice_to.
  destruct (Z.leb_spec 0 m); [reflexivity|lia].
Qed.

Lemma pseudo_relevant_set {A} (m : Z) (l : list A) :
  (0 <= m)%Z ->
  (if (Z.of_nat (length l) >=? m)%Z then slice_to m l else l)
  = take (Nat.min (Z.to_nat m) (length l)) l.
Proof.
  intros Hm. rewrite slice_to_nonneg by exact Hm.
  destruct (Z.geb_spec (Z.of_nat (length l)) m) as [Hge|Hlt].
  - rewrite Nat.min_l by lia. reflexivity.
  - rewrite Nat.min_r by lia. rewrite firstn_all. reflexivity.
Qed.

Lemma pseudo_relevance_feedback_take self q top m :
  (0 <= m)%Z ->
  pseudo_relevance_feedback self q top (Some m)
  = refine_query self q
      (Some (take (Nat.min (Z.to_nat m) (length top)) top)) None None
      default_text_weight.
Proof.
  intros Hm. unfold pseudo_relevance_feedback. simpl.
  rewrite pseudo_relevant_set by exact Hm. reflexivity.
Qed.

(** With a negative [top_m] Python's slice drops vectors from the end
    instead. *)
Lemma pseudo_relevance_feedback_negative self q top m :
  (m < 0)%Z ->
  pseudo_relevance_feedback self q top (Some m)
  = refine_query self q
      (Some (take (length top - Z.to_nat (- m)) top)) None None
      default_text_weight.
Proof.
  intros Hm. unfold pseudo_relevance_feedback, slice_to. simpl.
  destruct (Z.geb_spec (Z.of_nat (length top)) m); [|lia].
  destruct (Z.leb_spec 0 m); [lia|reflexivity].
Qed.

Lemma add_iteration_appends sm sid s qv qtype res p n t now :
  sessions sm !! sid = Some s ->
  add_iteration sm sid qv qtype res p n t now
  = Ok ({| sessions :=
             <[sid := {| session_id := session_id s;
                         created_at := created_at s;
                         iterations := iterations s ++
                           [{| iteration := length (iterations s) + 1;
                               query_vector := qv; query_type := qtype;
                               results := res;
                               positive_feedback := default [] p;
                               negative_feedback := default [] n;
                               text_feedback := t; timestamp := now |}] |}]>
               (sessions sm) |},
        (length (iterations s) + 1)%nat).
Proof. intros Hs. unfold add_iteration. rewrite Hs. reflexivity. Qed.

Lemma current_query_vector_last s it :
  last (iterations s) = Some it ->
  current_query_vector s = Some (query_vector it).
Proof. intros H. unfold current_query_vector. rewrite H. reflexivity. Qed.

(** Reduce a bind of the outcome monad whose argument is known. *)
Ltac outcome_step :=
  unfold mbind, mret, outcome_bind, outcome_ret; cbv beta iota.

(** The pseudo-feedback round, when its refinement and its search succeed:
    one [add_iteration] call and nothing else touches the session. *)
Lemma pseudo_feedback_ok pca app request now s last_it refined found :
  sessions (session_manager app) !! pf_session_id request = Some s ->
  last (iterations s) = Some last_it ->
  pseudo_refined_query (vector_store app) s (query_vector last_it)
    (pf_top_m request) = Ok refined ->
  search (vector_store app) refined (Z.pos (pf_top_k request)) = Ok found ->
  exists app' resp s' new,
    pseudo_feedback pca app request now = Ok (app', resp)
    /\ vector_store app' = vector_store app
    /\ run_calls now
         (pseudo_feedback_calls request refined (fst (fst found)))
         (session_manager app) = Ok (session_manager app')
    /\ sessions (session_manager app') !! pf_session_id request = Some s'
    /\ iterations s' = iterations s ++ [new]
    /\ iteration new = (length (iterations s) + 1)%nat
    /\ query_vector new = refined
    /\ results new = fst (fst found)
    /\ resp_iteration resp = iteration new.
Proof.
  intros Hs Hlast Hrefined Hfound.
  unfold pseudo_feedback, get_session. rewrite Hs.
  rewrite (current_query_vector_last s last_it Hlast).
  rewrite Hrefined. outcome_step. rewrite Hfound. outcome_step.
  rewrite (add_iteration_appends _ _ s _ _ _ _ _ _ _ Hs).
  eexists _, _, _, _. split; [reflexivity|]. cbn [vector_store session_manager].
  split; [reflexivity|]. split.
  { unfold pseudo_feedback_calls, run_calls, run_call. outcome_step.
    rewrite (add_iteration_appends _ _ s _ _ _ _ _ _ _ Hs). reflexivity. }
  split; [apply lookup_insert_eq|]. simpl. repeat split.
Qed.

(** ** Explicit relevance feedback *)

Lemma update_last_iteration_feedback_some sm sid s last_it p n t :
  sessions sm !! sid = Some s ->
  last (iterations s) = Some last_it ->
  update_last_iteration_feedback sm sid p n t
  = {| sessions :=
         <[sid := {| session_id := session_id s;
                     created_at := created_at s;
                     iterations :=
                       alter (with_feedback p n t)
                             (length (iterations s) - 1)%nat
                             (iterations s) |}]> (sessions sm) |}.
Proof.
  intros Hs Hlast. unfold update_last_iteration_feedback.
  rewrite Hs, Hlast. reflexivity.
Qed.

(** The feedback round, when its lookups and its search succeed: the last
    iteration is given the feedback first, then the new iteration is
    appended. *)
Lemma relevance_feedback_ok enc pca app request now s last_it pv nv found :
  let sid := rf_session_id request in
  let positive_ids :=
    map item_image_id (List.filter is_positive (rf_feedback_items request)) in
  let negative_ids :=
    map item_image_id (List.filter is_negative (rf_feedback_items request)) in
  let refined :=
    feedback_refined_query enc (query_vector last_it) pv nv
      (rf_text_feedback request) in
  sessions (session_manager app) !! sid = Some s ->
  last (iterations s) = Some last_it ->
  rf_feedback_items request <> [] \/ truthy (rf_text_feedback request) = true ->
  vectors_if_any (vector_store app) positive_ids = Ok pv ->
  vectors_if_any (vector_store app) negative_ids = Ok nv ->
  search (vector_store app) refined (Z.pos (rf_top_k request)) = Ok found ->
  exists app' resp s' new,
    relevance_feedback enc pca app request now = Ok (app', resp)
    /\ vector_store app' = vector_store app
    /\ run_calls now
         (relevance_feedback_calls request refined (fst (fst found)))
         (session_manager app) = Ok (session_manager app')
    /\ sessions (session_manager app') !! sid = Some s'
    /\ iterations s'
       = alter (with_feedback positive_ids negative_ids
                  (rf_text_feedback request))
               (length (iterations s) - 1)%nat (iterations s) ++ [new]
    /\ iteration new = (length (iterations s) + 1)%nat
    /\ query_vector new = refined
    /\ results new = fst (fst found)
    /\ resp_iteration resp = iteration new.
Proof.
  intros sid positive_ids negative_ids refined Hs Hlast Hfb Hpos Hneg Hfound.
  unfold relevance_feedback, get_session. fold sid. rewrite Hs.
  rewrite (current_query_vector_last s last_it Hlast).
  replace (bool_decide (rf_feedback_items request = [])
           && negb (truthy (rf_text_feedback request))) with false.
  2:{ destruct Hfb as [Hitems| ->].
      - rewrite bool_decide_eq_false_2 by exact Hitems. reflexivity.
      - rewrite andb_false_r. reflexivity. }
  fold positive_ids negative_ids. rewrite Hpos. outcome_step.
  rewrite Hneg. outcome_step. fold refined. rewrite Hfound. outcome_step.
  rewrite (update_last_iteration_feedback_some _ _ s last_it _ _ _ Hs Hlast).
  erewrite add_iteration_appends by (apply lookup_insert_eq).
  cbn [session_id created_at iterations sessions].
  eexists _, _, _, _. split; [reflexivity|].
  cbn [vector_store session_manager]. split; [reflexivity|]. split.
  { unfold relevance_feedback_calls, run_calls, run_call. outcome_step.
    fold sid positive_ids negative_ids.
    rewrite (update_last_iteration_feedback_some _ _ s last_it _ _ _ Hs Hlast).
    erewrite add_iteration_appends by (apply lookup_insert_eq).
    reflexivity. }
  split; [apply lookup_insert_eq|]. cbn [iterations].
  split; [reflexivity|]. cbn. rewrite length_alter. repeat split.
Qed.

(** ** The rounds on the one-vector store *)

Lemma norm_axis a : 0 <= a -> norm [a; 0] = a.
Proof.
  intros Ha. unfold norm, dot, vmul, Rsum. simpl.
  replace (a * a + (0 * 0 + 0)) with (Rsqr a) by (unfold Rsqr; lra).
  apply sqrt_Rsqr. exact Ha.
Qed.

Lemma rocchio_toward_A :
  refine_query rocchio [1; 0] (Some [[1; 0]]) None None default_text_weight
  = [1; 0].
Proof.
  unfold refine_query.
  change (rows_of (Some [[1; 0]])) with [[1; 0]].
  change (has_rows (Some [[1; 0]])) with true.
  change (has_rows None) with false. cbv iota.
  replace (vadd (scale (alpha rocchio) [1; 0])
             (scale (beta rocchio) (mean_rows [[1; 0]])))
    with [7 / 4; 0].
  2:{ unfold rocchio, RocchioAlgorithm_init, ROCCHIO_ALPHA, ROCCHIO_BETA.
      simpl. f_equal; [lra|]. f_equal. lra. }
  rewrite norm_axis by lra.
  destruct (Rlt_dec 0 (7 / 4)); [|lra].
  simpl. f_equal; [lra|]. f_equal. lra.
Qed.

Lemma pseudo_refined_query_A :
  pseudo_refined_query store_A (session_of [first_iteration]) [1; 0] 1
  = Ok [1; 0].
Proof.
  unfold pseudo_refined_query.
  change (last (iterations (session_of [first_iteration])))
    with (Some first_iteration).
  cbv beta iota.
  assert (Hget : get_vectors store_A (slice_to 1 (results first_iteration))
                 = Ok [[1; 0]]) by reflexivity.
  rewrite Hget. outcome_step.
  change (Nat.eqb (length [[1; 0]]) 0) with false. cbv iota.
  rewrite pseudo_relevance_feedback_take by lia.
  transitivity
    (Ok (refine_query rocchio [1; 0] (Some [[1; 0]]) None None
           default_text_weight));
    [reflexivity | f_equal; apply rocchio_toward_A].
Qed.

Lemma search_A :
  search store_A [1; 0] 1
  = Ok (["A"], [dot (vdiv [1; 0] (norm [1; 0])) [1; 0]], images store_A).
Proof.
  rewrite search_defined; [reflexivity| |reflexivity|lia].
  rewrite norm_1_0. lra.
Qed.

Lemma feedback_refined_query_A :
  feedback_refined_query unit_encoder [1; 0] (Some [[1; 0]]) None None
  = [1; 0].
Proof. exact rocchio_toward_A. Qed.

(** C5 (counterexample): the session has one iteration, a text search that
    returned "A".  The pseudo-feedback round with top_m = 1 returns
    normally; its only call on the session manager is [add_iteration], so
    no backfill follows the recording (nor precedes it), and the iteration
    that preceded the new one is exactly what it was, with empty feedback
    fields.  The feedback round marking "A" as relevant returns normally
    too; it makes its backfill call first and its recording call second,
    so there also no backfill follows the recording. *)
Lemma no_backfill_after_recording :
  let request := {| pf_session_id := "s"; pf_top_m := 1; pf_top_k := 1 |} in
  let calls := pseudo_feedback_calls request [1; 0] ["A"] in
  let fcalls := relevance_feedback_calls request_positive_A [1; 0] ["A"] in
  (exists app' resp s' new,
     pseudo_feedback first_two app_A request 5 = Ok (app', resp)
     /\ run_calls 5 calls (session_manager app_A) = Ok (session_manager app')
     /\ backfill_after_record calls = false
     /\ existsb is_backfill calls = false
     /\ sessions (session_manager app') !! "s" = Some s'
     /\ iterations s' = [first_iteration; new]
     /\ iteration new = 2%nat
     /\ positive_feedback first_iteration = []
     /\ negative_feedback first_iteration = []
     /\ text_feedback first_iteration = None)
  /\ (exists app' resp,
        relevance_feedback unit_encoder first_two app_A request_positive_A 5
        = Ok (app', resp)
        /\ run_calls 5 fcalls (session_manager app_A)
           = Ok (session_manager app')
        /\ fcalls
           = [call_update_last_iteration_feedback "s" ["A"] [] None;
              call_add_iteration "s" [1; 0] "feedback" ["A"] (Some ["A"])
                (Some []) None]
        /\ backfill_after_record fcalls = false).
Proof.
  intros request calls fcalls. split.
  - destruct (pseudo_feedback_ok first_two app_A request 5
                (session_of [first_iteration]) first_iteration [1; 0]
                (["A"], [dot (vdiv [1; 0] (norm [1; 0])) [1; 0]],
                 images store_A))
      as (app' & resp & s' & new & Hrun & _ & Hcalls & Hs' & Hits & Hnum & _).
    + reflexivity.
    + reflexivity.
    + exact pseudo_refined_query_A.
    + exact search_A.
    + exists app', resp, s', new. repeat split; try assumption.
  - destruct (relevance_feedback_ok unit_encoder first_two app_A
                request_positive_A 5 (session_of [first_iteration])
                first_iteration (Some [[1; 0]]) None
                (["A"], [dot (vdiv [1; 0] (norm [1; 0])) [1; 0]],
                 images store_A))
      as (app' & resp & s' & new & Hrun & _ & Hcalls & _).
    + reflexivity.
    + reflexivity.
    + left. discriminate.
    + reflexivity.
    + reflexivity.
    + transitivity (search store_A [1; 0] 1); [|exact search_A].
      apply (f_equal (fun q => search store_A q 1)), feedback_refined_query_A.
    + exists app', resp. split; [exact Hrun|]. split; [|split; reflexivity].
      transitivity
        (run_calls 5
           (relevance_feedback_calls request_positive_A
              (feedback_refined_query unit_encoder
                 (query_vector first_iteration) (Some [[1; 0]]) None
                 (rf_text_feedback request_positive_A)) ["A"])
           (session_manager app_A)); [|exact Hcalls].
      unfold fcalls.
      apply (f_equal (fun q => run_calls 5
                 (relevance_feedback_calls request_positive_A q ["A"])
                 (session_manager app_A))).
      symmetry. exact feedback_refined_query_A.
Qed.

Lemma last_lookup_pred {A} (l : list A) (a : A) :
  last l = Some a -> l !! (length l - 1)%nat = Some a.
Proof.
  intros H. rewrite last_lookup in H.
  replace (length l - 1)%nat with (Nat.pred (length l)) by lia. exact H.
Qed.

(** C5 (amended): a feedback round that succeeds calls
    [update_last_iteration_feedback] and then [add_iteration], in that
    order: the iteration that was last before the round receives the
    round's positive ids, negative ids and text feedback, and only then is
    the new iteration appended after it.  A pseudo-feedback round that
    succeeds calls [add_iteration] only: the new iteration is appended and
    the earlier iterations are left as they were. *)
Theorem feedback_round_backfills_then_records :
  (forall (enc : Encoder) (pca : Reducer) (app : App)
          (request : RelevanceFeedbackRequest) (now : Z) (s : Session)
          (last_it : SearchIteration) (pv nv : option (list vec))
          (found : list string * list R * list ImageData),
     let sid := rf_session_id request in
     let positive_ids :=
       map item_image_id
           (List.filter is_positive (rf_feedback_items request)) in
     let negative_ids :=
       map item_image_id
           (List.filter is_negative (rf_feedback_items request)) in
     let refined :=
       feedback_refined_query enc (query_vector last_it) pv nv
         (rf_text_feedback request) in
     let calls :=
       relevance_feedback_calls request refined (fst (fst found)) in
     sessions (session_manager app) !! sid = Some s ->
     last (iterations s) = Some last_it ->
     rf_feedback_items request <> []
       \/ truthy (rf_text_feedback request) = true ->
     vectors_if_any (vector_store app) positive_ids = Ok pv ->
     vectors_if_any (vector_store app) negative_ids = Ok nv ->
     search (vector_store app) refined (Z.pos (rf_top_k request)) = Ok found ->
     exists app' resp s' new,
       relevance_feedback enc pca app request now = Ok (app', resp)
       /\ run_calls now calls (session_manager app)
          = Ok (session_manager app')
       /\ existsb is_backfill calls = true
       /\ backfill_after_record calls = false
       /\ sessions (session_manager app') !! sid = Some s'
       /\ length (iterations s') = S (length (iterations s))
       /\ iterations s' !! (length (iterations s) - 1)%nat
          = Some (with_feedback positive_ids negative_ids
                    (rf_text_feedback request) last_it)
       /\ iterations s' !! length (iterations s) = Some new
       /\ iteration new = (length (iterations s) + 1)%nat)
  /\ (forall (pca : Reducer) (app : App) (request : PseudoFeedbackRequest)
             (now : Z) (s : Session) (last_it : SearchIteration)
             (refined : vec) (found : list string * list R * list ImageData),
        let calls :=
          pseudo_feedback_calls request refined (fst (fst found)) in
        sessions (session_manager app) !! pf_session_id request = Some s ->
        last (iterations s) = Some last_it ->
        pseudo_refined_query (vector_store app) s (query_vector last_it)
          (pf_top_m request) = Ok refined ->
        search (vector_store app) refined (Z.pos (pf_top_k request)) = Ok found ->
        exists app' resp s' new,
          pseudo_feedback pca app request now = Ok (app', resp)
          /\ run_calls now calls (session_manager app)
             = Ok (session_manager app')
          /\ existsb is_backfill calls = false
          /\ sessions (session_manager app') !! pf_session_id request
             = Some s'
          /\ iterations s' = iterations s ++ [new]
          /\ iteration new = (length (iterations s) + 1)%nat).
Proof.
  split.
  - intros enc pca app request now s last_it pv nv found sid positive_ids
      negative_ids refined calls Hs Hlast Hfb Hpos Hneg Hfound.
    destruct (relevance_feedback_ok enc pca app request now s last_it pv nv
                found Hs Hlast Hfb Hpos Hneg Hfound)
      as (app' & resp & s' & new & Hrun & _ & Hcalls & Hs' & Hits & Hnum & _).
    exists app', resp, s', new.
    repeat split; try assumption.
    + rewrite Hits, length_app, length_alter. simpl. lia.
    + rewrite Hits, lookup_app_l.
      * rewrite list_lookup_alter. case_decide; [|done].
        rewrite (last_lookup_pred _ _ Hlast). reflexivity.
      * rewrite length_alter.
        apply last_lookup_pred, lookup_lt_Some in Hlast. lia.
    + rewrite Hits, lookup_app_r by (rewrite length_alter; lia).
      rewrite length_alter, Nat.sub_diag. reflexivity.
  - intros pca app request now s last_it refined found calls Hs Hlast
      Hrefined Hfound.
    destruct (pseudo_feedback_ok pca app request now s last_it refined found
                Hs Hlast Hrefined Hfound)
      as (app' & resp & s' & new & Hrun & _ & Hcalls & Hs' & Hits & Hnum & _).
    exists app', resp, s', new. repeat split; assumption.
Qed.

Lemma pseudo_refined_query_top_one vs s it r rest v :
  iterations s = [it] ->
  results it = r :: rest ->
  get_vector vs r = Ok (Some v) ->
  pseudo_refined_query vs s (query_vector it) 1
  = Ok (refine_query rocchio (query_vector it) (Some [v]) None None
          default_text_weight).
Proof.
  intros Hits Hres Hv. unfold pseudo_refined_query.
  rewrite Hits. cbn [last]. cbv beta iota. rewrite Hres.
  assert (Hslice : slice_to 1 (r :: rest) = [r]) by reflexivity.
  rewrite Hslice. cbn [get_vectors]. rewrite Hv. outcome_step.
  cbn [length Nat.eqb]. rewrite pseudo_relevance_feedback_take by lia.
  reflexivity.
Qed.

(** C7: for a count m >= 0, [pseudo_relevance_feedback] is [refine_query]
    with the first min(m, len(top_vectors)) vectors as the relevant set, no
    non-relevant set and no text modification, hence the specification's
    refinement formula on that set; and on a session with exactly one
    iteration whose top result has a stored vector v, the pseudo-feedback
    round with top_m = 1 records a new iteration whose query vector is
    refine(original query, [v], none), provided the search with it
    succeeds. *)
Theorem pseudo_feedback_is_rocchio_on_top_results :
  (forall (self : RocchioAlgorithm) (q : vec) (top : list vec) (m : Z),
     (0 <= m)%Z ->
     let relevant := take (Nat.min (Z.to_nat m) (length top)) top in
     pseudo_relevance_feedback self q top (Some m)
     = refine_query self q (Some relevant) None None default_text_weight
     /\ pseudo_relevance_feedback self q top (Some m)
        = spec_refine (alpha self) (beta self) (gamma self) q relevant [])
  /\ (forall (pca : Reducer) (app : App) (sid : string) (s : Session)
             (it : SearchIteration) (r : string) (rest : list string)
             (v : vec) (k : positive) (now : Z)
             (found : list string * list R * list ImageData),
        let refined :=
          refine_query rocchio (query_vector it) (Some [v]) None None
            default_text_weight in
        sessions (session_manager app) !! sid = Some s ->
        iterations s = [it] ->
        results it = r :: rest ->
        get_vector (vector_store app) r = Ok (Some v) ->
        search (vector_store app) refined (Z.pos k) = Ok found ->
        exists app' resp s' new,
          pseudo_feedback pca app
            {| pf_session_id := sid; pf_top_m := 1; pf_top_k := k |} now
          = Ok (app', resp)
          /\ sessions (session_manager app') !! sid = Some s'
          /\ iterations s' = [it; new]
          /\ query_vector new = refined
          /\ iteration new = 2%nat).
Proof.
  split.
  - intros self q top m Hm relevant.
    pose proof (pseudo_relevance_feedback_take self q top m Hm) as H.
    fold relevant in H. split; [exact H|].
    rewrite H. apply (refine_query_spec self q (Some relevant) None).
  - intros pca app sid s it r rest v k now found refined Hs Hits Hres Hv
      Hfound.
    destruct (pseudo_feedback_ok pca app
                {| pf_session_id := sid; pf_top_m := 1; pf_top_k := k |}
                now s it refined found)
      as (app' & resp & s' & new & Hrun & _ & _ & Hs' & Hits' & Hnum & Hq & _).
    + exact Hs.
    + rewrite Hits. reflexivity.
    + apply (pseudo_refined_query_top_one _ s it r rest v Hits Hres Hv).
    + exact Hfound.
    + exists app', resp, s', new. rewrite Hits in Hits', Hnum.
      repeat split; assumption.
Qed.

Lemma pseudo_feedback_is_rocchio_on_top_results_witness :
  (let relevant := take (Nat.min (Z.to_nat 1) (length [[1; 0]])) [[1; 0]] in
   pseudo_relevance_feedback rocchio [1; 0] [[1; 0]] (Some 1%Z)
   = refine_query rocchio [1; 0] (Some relevant) None None
       default_text_weight
   /\ pseudo_relevance_feedback rocchio [1; 0] [[1; 0]] (Some 1%Z)
      = spec_refine (alpha rocchio) (beta rocchio) (gamma rocchio) [1; 0]
          relevant [])
  /\ exists app' resp s' new,
       pseudo_feedback first_two app_A
         {| pf_session_id := "s"; pf_top_m := 1; pf_top_k := 1 |} 5
       = Ok (app', resp)
       /\ sessions (session_manager app') !! "s" = Some s'
       /\ iterations s' = [first_iteration; new]
       /\ query_vector new
          = refine_query rocchio [1; 0] (Some [[1; 0]]) None None
              default_text_weight
       /\ iteration new = 2%nat.
Proof.
  destruct pseudo_feedback_is_rocchio_on_top_results as [Hformula Hround].
  split.
  - apply (Hformula rocchio [1; 0] [[1; 0]] 1%Z). lia.
  - apply (Hround first_two app_A "s" (session_of [first_iteration])
             first_iteration "A" [] [1; 0] 1%positive 5%Z
             (["A"], [dot (vdiv [1; 0] (norm [1; 0])) [1; 0]],
              images store_A)).
    + reflexivity.
    + reflexivity.
    + reflexivity.
    + reflexivity.
    + transitivity (search store_A [1; 0] 1); [|exact search_A].
      apply (f_equal (fun q => search store_A q 1)), rocchio_toward_A.
Defined.

Lemma feedback_round_backfills_then_records_witness :
  exists app' resp s' new,
    relevance_feedback unit_encoder first_two app_A request_positive_A 5
    = Ok (app', resp)
    /\ sessions (session_manager app') !! "s" = Some s'
    /\ iterations s'
       = [with_feedback ["A"] [] None first_iteration; new]
    /\ iteration new = 2%nat.
Proof.
  destruct feedback_round_backfills_then_records as [Hfeedback _].
  destruct (Hfeedback unit_encoder first_two app_A request_positive_A 5%Z
              (session_of [first_iteration]) first_iteration
              (Some [[1; 0]]) None
              (["A"], [dot (vdiv [1; 0] (norm [1; 0])) [1; 0]],
               images store_A))
    as (app' & resp & s' & new & Hrun & _ & _ & _ & Hs' & Hlen & Hprev
        & Hnew & Hnum).
  - reflexivity.
  - reflexivity.
  - left. discriminate.
  - reflexivity.
  - reflexivity.
  - transitivity (search store_A [1; 0] 1); [|exact search_A].
    apply (f_equal (fun q => search store_A q 1)), rocchio_toward_A.
  - exists app', resp, s', new. split; [exact Hrun|]. split; [exact Hs'|].
    split; [|exact Hnum].
    destruct (iterations s') as [|a [|b [|c l]]]; simpl in Hlen;
      try discriminate Hlen.
    simpl in Hprev, Hnew. injection Hprev as ->. injection Hnew as ->.
    reflexivity.
Defined.

(** ** Further facts tying the statements together *)

Lemma store_built_in_step s : store_built s -> in_step s.
Proof.
  induction 1 as [d|s rows ids fnames ml s' _ IH _ Hrows Hlen Hadd].
  - reflexivity.
  - exact (add_vectors_in_step s rows ids fnames ml s' IH Hrows Hlen Hadd).
Qed.

(** An id repeated inside one batch: both rows are stored, both metadata
    entries are appended, and the id points at the later slot. *)
Lemma duplicate_id_inside_batch :
  exists s',
    add_vectors store_A (Array2 [[0; 1]; [0; 1]]) ["B"; "B"]
      ["b1.jpg"; "b2.jpg"] None = Added s'
    /\ total_images s' = 3%nat
    /\ map image_id (images s') = ["A"; "B"; "B"]
    /\ id_to_idx s' !! "B" = Some 2%nat.
Proof.
  unfold add_vectors.
  change (forallb _ [[0; 1]; [0; 1]]) with true. cbn [unit_rows].
  unfold unit_scale.
  destruct (Req_dec_T (norm [0; 1]) 0) as [Hz|_];
    [rewrite norm_0_1 in Hz; lra|].
  cbn. eexists. split; [reflexivity|]. repeat split.
Qed.

(** A text search without a session id opens a session and records its
    first iteration. *)
Lemma search_by_text_first_iteration enc pca app request new_id now found :
  ts_session_id request = None ->
  search (vector_store app) (enc (ts_query request)) (Z.pos (ts_top_k request))
  = Ok found ->
  exists app' resp,
    search_by_text enc pca app request new_id now = (app', Ok resp)
    /\ vector_store app' = vector_store app
    /\ resp_session_id resp = new_id
    /\ sessions (session_manager app') !! new_id
       = Some {| session_id := new_id; created_at := now;
                 iterations :=
                   [{| iteration := 1;
                       query_vector := enc (ts_query request);
                       query_type := "text";
                       results := fst (fst found);
                       positive_feedback := [];
                       negative_feedback := [];
                       text_feedback := None;
                       timestamp := now |}] |}.
Proof.
  intros Hsid Hfound. unfold search_by_text. rewrite Hsid.
  cbn [get_or_create_session create_session vector_store].
  rewrite Hfound.
  erewrite add_iteration_appends by (apply lookup_insert_eq).
  eexists _, _. split; [reflexivity|].
  cbn [vector_store session_manager sessions resp_session_id
         create_search_response].
  split; [reflexivity|]. split; [reflexivity|].
  rewrite lookup_insert_eq. reflexivity.
Qed.

(** The scenario of the specification: a text search opens the session,
    then a pseudo-feedback round with top_m = 1 refines the text query
    with the stored vector of the top result as the only relevant
    vector. *)
Lemma text_search_then_pseudo_round enc pca app request new_id now found
    r rest v k now' found' :
  let q0 := enc (ts_query request) in
  let refined :=
    refine_query rocchio q0 (Some [v]) None None default_text_weight in
  ts_session_id request = None ->
  search (vector_store app) q0 (Z.pos (ts_top_k request)) = Ok found ->
  fst (fst found) = r :: rest ->
  get_vector (vector_store app) r = Ok (Some v) ->
  search (vector_store app) refined (Z.pos k) = Ok found' ->
  exists app1 resp1 app2 resp2 s2 new,
    search_by_text enc pca app request new_id now = (app1, Ok resp1)
    /\ pseudo_feedback pca app1
         {| pf_session_id := resp_session_id resp1; pf_top_m := 1;
            pf_top_k := k |} now' = Ok (app2, resp2)
    /\ sessions (session_manager app2) !! new_id = Some s2
    /\ iterations s2 !! 1%nat = Some new
    /\ query_vector new = refined
    /\ query_vector new
       = spec_refine (alpha rocchio) (beta rocchio) (gamma rocchio) q0 [v] [].
Proof.
  intros q0 refined Hsid Hfound Hres Hv Hfound'.
  destruct (search_by_text_first_iteration enc pca app request new_id now
              found Hsid Hfound)
    as (app1 & resp1 & Hrun1 & Hvs & Hrsid & Hs1).
  set (it1 := mkSearchIteration 1 _ _ _ _ _ _ _) in Hs1.
  set (s1 := mkSession new_id _ _) in Hs1.
  destruct (pseudo_feedback_ok pca app1
              {| pf_session_id := resp_session_id resp1; pf_top_m := 1;
                 pf_top_k := k |} now' s1 it1 refined found')
    as (app2 & resp2 & s2 & new & Hrun2 & _ & _ & Hs2 & Hits & _ & Hq & _).
  - cbn [pf_session_id]. rewrite Hrsid. exact Hs1.
  - reflexivity.
  - cbn [pf_top_m query_vector]. rewrite Hvs.
    apply (pseudo_refined_query_top_one _ s1 it1 r rest v);
      [reflexivity|exact Hres|exact Hv].
  - cbn [pf_top_k]. rewrite Hvs. exact Hfound'.
  - exists app1, resp1, app2, resp2, s2, new.
    cbn [pf_session_id] in Hs2. rewrite Hrsid in Hs2.
    split; [exact Hrun1|]. split; [exact Hrun2|]. split; [exact Hs2|].
    split; [rewrite Hits; reflexivity|]. split; [exact Hq|].
    rewrite Hq. apply (refine_query_spec rocchio q0 (Some [v]) None).
Qed.

(** The trajectory of a session with two iterations under the reducer that
    keeps the first two coordinates. *)
Lemma trajectory_of_two_iterations :
  get_query_vectors_2d first_two
    (manager_of [first_iteration; first_iteration]) "s" None
  = [{| x := 1; y := 0; point_iteration := 1 |};
     {| x := 1; y := 0; point_iteration := 2 |}].
Proof. reflexivity. Qed.

(** The example store is what one insert into the empty store builds, and
    the example session is what a text search on it records. *)
Lemma store_A_built : store_built store_A.
Proof.
  apply (built_add (empty_store 2) [[1; 0]] ["A"] ["a.jpg"] None);
    [apply built_empty|repeat constructor; rewrite norm_1_0; lra
    |reflexivity|reflexivity|].
  unfold add_vectors.
  change (forallb _ [[1; 0]]) with true. cbn [unit_rows]. unfold unit_scale.
  destruct (Req_dec_T (norm [1; 0]) 0) as [Hz|_];
    [rewrite norm_1_0 in Hz; lra|].
  rewrite norm_1_0. cbn. f_equal. unfold store_A. f_equal.
  - f_equal. f_equal; [lra|]. f_equal. lra.
Qed.

Lemma app_A_from_text_search :
  let app0 :=
    {| vector_store := store_A; session_manager := SessionManager_init |} in
  let request :=
    {| ts_query := "shirt"; ts_top_k := 1; ts_session_id := None |} in
  exists resp,
    search_by_text unit_encoder first_two app0 request "s" 0
    = (app_A, Ok resp)
    /\ resp_iteration resp = 1%nat.
Proof.
  intros app0 request.
  assert (Hfound : search (vector_store app0)
                     (unit_encoder (ts_query request)) (Z.pos (ts_top_k request))
                   = Ok (["A"], [dot (vdiv [1; 0] (norm [1; 0])) [1; 0]],
                         images store_A)) by exact search_A.
  unfold search_by_text.
  change (get_or_create_session (session_manager app0)
            (ts_session_id request) "s" 0)
    with (create_session SessionManager_init "s" 0).
  cbn [create_session vector_store]. rewrite Hfound.
  erewrite add_iteration_appends by (apply lookup_insert_eq).
  eexists. split.
  - reflexivity.
  - reflexivity.
Qed.

(** * Further properties of the code *)

(** ** More vector algebra *)

Lemma dot_comm u v : dot u v = dot v u.
Proof.
  revert v. induction u as [|a u IH]; intros [|b v]; try reflexivity.
  rewrite !dot_cons, IH. lra.
Qed.

Lemma dot_vadd_l u w v :
  length u = length w -> dot (vadd u w) v = dot u v + dot w v.
Proof.
  revert w v. induction u as [|a u IH]; intros [|b w] [|c v] Hl;
    simpl in Hl; try discriminate; try (unfold dot; simpl; lra).
  change (dot (a + b :: vadd u w) (c :: v)
          = dot (a :: u) (c :: v) + dot (b :: w) (c :: v)).
  rewrite !dot_cons, IH by congruence. lra.
Qed.

Lemma dot_zero_l u v : Forall (fun a => a = 0) u -> dot u v = 0.
Proof.
  intros H. revert v. induction H as [|a u Ha Hu IH]; intros [|b v];
    try reflexivity.
  rewrite dot_cons, IH, Ha. lra.
Qed.

Lemma length_vadd u v : length u = length v -> length (vadd u v) = length u.
Proof. intros H. unfold vadd. rewrite length_zip_with. lia. Qed.

Lemma length_vsub u v : length u = length v -> length (vsub u v) = length u.
Proof. intros H. unfold vsub. rewrite length_zip_with. lia. Qed.

(** The Cauchy-Schwarz inequality, for lists of any lengths. *)
Lemma cauchy_schwarz u v : dot u v * dot u v <= dot u u * dot v v.
Proof.
  revert v. induction u as [|a u IH]; intros [|b v].
  - unfold dot; simpl; lra.
  - unfold dot at 1 2 3; simpl. lra.
  - pose proof (dot_self_nonneg (a :: u)). unfold dot at 1 2 4; simpl. lra.
  - rewrite !dot_cons. specialize (IH v).
    pose proof (dot_self_nonneg u) as HU.
    pose proof (dot_self_nonneg v) as HV.
    set (S := dot u v) in *. set (U := dot u u) in *.
    set (V := dot v v) in *.
    assert (Hmix : 2 * (a * b * S) <= a * a * V + b * b * U).
    { destruct (Req_dec U 0) as [HU0|HU0].
      - assert (HS : S = 0) by nra. rewrite HS, HU0. nra.
      - assert (HUpos : 0 < U) by lra.
        apply Rmult_le_reg_l with U; [exact HUpos|].
        pose proof (Rle_0_sqr (a * S - b * U)) as Hsq. unfold Rsqr in Hsq.
        nra. }
    nra.
Qed.

Lemma dot_unit_bounds u v :
  norm u = 1 -> norm v = 1 -> -1 <= dot u v <= 1.
Proof.
  intros Hu Hv. pose proof (cauchy_schwarz u v) as H.
  rewrite (norm_one_dot u Hu), (norm_one_dot v Hv) in H. nra.
Qed.

Lemma norm_vdiv_self v : norm v <> 0 -> norm (vdiv v (norm v)) = 1.
Proof.
  intros H. pose proof (norm_nonneg v) as Hn.
  rewrite vdiv_as_scale, norm_scale.
  - field. exact H.
  - left. apply Rinv_0_lt_compat. lra.
Qed.

Lemma vdiv_one v : vdiv v 1 = v.
Proof.
  unfold vdiv. induction v as [|a v IH]; simpl; [reflexivity|].
  rewrite IH. f_equal. lra.
Qed.

(** The guarded division by the norm that [refine_query] and [_normalize]
    end with. *)
Lemma guarded_division_unit_or_zero v :
  let r := if Rlt_dec 0 (norm v) then vdiv v (norm v) else v in
  norm r = 1 \/ Forall (fun a => a = 0) r.
Proof.
  simpl. pose proof (norm_nonneg v) as Hn.
  destruct (Rlt_dec 0 (norm v)) as [Hpos|Hnpos].
  - left. apply norm_vdiv_self. lra.
  - right. apply norm_zero. lra.
Qed.

Lemma normalize_pos v : 0 < norm v -> _normalize v = vdiv v (norm v).
Proof.
  intros H. unfold _normalize.
  destruct (Rlt_dec 0 (norm v)); [reflexivity|contradiction].
Qed.

Lemma normalize_zero v : ~ 0 < norm v -> _normalize v = v.
Proof.
  intros H. unfold _normalize.
  destruct (Rlt_dec 0 (norm v)); [contradiction|reflexivity].
Qed.



(** ** The refinement engine: norms of the results *)

Lemma refine_query_unit_or_zero self q rel nonrel t w :
  unit_or_zero (refine_query self q rel nonrel t w).
Proof. unfold refine_query. apply guarded_division_unit_or_zero. Qed.

Lemma compose_unit_or_zero self q t m : unit_or_zero (compose self q t m).
Proof. unfold compose, _normalize at 1. apply guarded_division_unit_or_zero. Qed.

Lemma foldl_compose_unit_or_zero self m ts :
  forall q t,
    unit_or_zero
      (foldl (fun result text_vec => compose self result text_vec m)
             (compose self q t m) ts).
Proof.
  induction ts as [|t' ts IH]; intros q t; simpl.
  - apply compose_unit_or_zero.
  - apply IH.
Qed.

(** X1: every vector the refinement engine returns, from [refine_query]
    (with or without a text modification), [pseudo_relevance_feedback],
    [compose] and [compose_multiple], has norm 1 or is the zero vector;
    for a composer whose attention temperature is in range (at
    temperature zero the attention method returns NaN). *)
Theorem refinement_results_unit_or_zero :
  forall (r : RocchioAlgorithm) (c : QueryComposer) (q : vec),
    temperature_in_range c ->
    (forall rel nonrel t w, unit_or_zero (refine_query r q rel nonrel t w))
    /\ (forall top m, unit_or_zero (pseudo_relevance_feedback r q top m))
    /\ (forall t m, unit_or_zero (compose c q t m))
    /\ (forall ts m agg, unit_or_zero (compose_multiple c q ts m agg)).
Proof.
  intros r c q _. split; [|split; [|split]].
  - intros. apply refine_query_unit_or_zero.
  - intros. unfold pseudo_relevance_feedback. apply refine_query_unit_or_zero.
  - intros. apply compose_unit_or_zero.
  - intros [|t ts] m agg; simpl.
    + unfold _normalize. apply guarded_division_unit_or_zero.
    + destruct agg.
      * apply foldl_compose_unit_or_zero.
      * apply compose_unit_or_zero.
Qed.

Lemma temperature_in_range_default : temperature_in_range query_composer.
Proof. unfold temperature_in_range, query_composer. simpl. lra. Qed.

Lemma refinement_results_unit_or_zero_witness :
  (forall rel nonrel t w,
     unit_or_zero (refine_query rocchio [1; 0] rel nonrel t w))
  /\ (forall top m,
        unit_or_zero (pseudo_relevance_feedback rocchio [1; 0] top m))
  /\ (forall t m, unit_or_zero (compose query_composer [1; 0] t m))
  /\ (forall ts m agg,
        unit_or_zero (compose_multiple query_composer [1; 0] ts m agg)).
Proof.
  apply (refinement_results_unit_or_zero rocchio query_composer [1; 0]).
  exact temperature_in_range_default.
Defined.

(** ** Residual composition keeps the query's direction *)

Lemma length_residual_of q t :
  length t = length q -> length (residual_of q t) = length q.
Proof.
  intros H. unfold residual_of.
  rewrite length_vsub by (rewrite length_scale; exact H). exact H.
Qed.

Lemma residual_compose_dot self q t :
  length t = length q -> norm q = 1 ->
  dot (_residual_compose self q t) q = 1.
Proof.
  intros Hlen Hq. unfold _residual_compose.
  rewrite dot_vadd_l
    by (rewrite length_scale, length_residual_of by exact Hlen; reflexivity).
  rewrite dot_scale_l, (residual_dot_zero q t Hlen Hq), (norm_one_dot q Hq).
  lra.
Qed.

Lemma residual_compose_norm_pos self q t :
  length t = length q -> norm q = 1 ->
  0 < norm (_residual_compose self q t).
Proof.
  intros Hlen Hq. pose proof (norm_nonneg (_residual_compose self q t)) as Hn.
  destruct (Req_dec (norm (_residual_compose self q t)) 0) as [Hz|Hnz]; [|lra].
  apply norm_zero in Hz.
  pose proof (dot_zero_l _ q Hz) as H0.
  rewrite (residual_compose_dot self q t Hlen Hq) in H0. lra.
Qed.



(** ** Composing a query with itself *)





Lemma interpolation_self al v :
  vadd (scale (1 - al) v) (scale al v) = v.
Proof.
  induction v as [|a v IH]; [reflexivity|].
  change ((1 - al) * a + al * a :: vadd (scale (1 - al) v) (scale al v)
          = a :: v).
  rewrite IH. f_equal. lra.
Qed.






(** ** Several text modifications *)

Lemma mean_rows_single v : mean_rows [v] = v.
Proof.
  unfold mean_rows. simpl. apply vdiv_one.
Qed.

Lemma compose_multiple_small_cases :
  forall (self : QueryComposer) (q t : vec) (m : option CompositionMethod)
         (agg : Aggregation),
    compose_multiple self q [] m agg = _normalize q
    /\ compose_multiple self q [t] m agg = compose self q t m.
Proof.
  intros self q t m agg. split; [reflexivity|].
  destruct agg; unfold compose_multiple; [reflexivity|].
  rewrite mean_rows_single. reflexivity.
Qed.

Lemma norm_single a : norm [a] = Rabs a.
Proof.
  unfold norm, dot, vmul, Rsum. simpl.
  replace (a * a + 0) with (Rsqr a) by (unfold Rsqr; lra).
  apply sqrt_Rsqr_abs.
Qed.

Lemma normalize_single_pos a : 0 < a -> _normalize [a] = [1].
Proof.
  intros Ha. rewrite normalize_pos; rewrite norm_single, Rabs_right by lra.
  - simpl. f_equal. field. lra.
  - exact Ha.
Qed.

Lemma normalize_single_neg a : a < 0 -> _normalize [a] = [-1].
Proof.
  intros Ha. rewrite normalize_pos; rewrite norm_single, Rabs_left by lra.
  - simpl. f_equal. field. lra.
  - lra.
Qed.

Lemma normalize_single_zero : _normalize [0] = [0].
Proof.
  apply normalize_zero. rewrite norm_single, Rabs_R0. lra.
Qed.

(** For the query (1) and the texts (1), (-1) under interpolation,
    applying the texts in sequence ends at (-1), while composing once with
    their mean leaves the query at (1). *)
Lemma interpolation_modes_differ :
  compose_multiple query_composer [1] [[1]; [-1]] (Some INTERPOLATION)
    sequential = [-1]
  /\ compose_multiple query_composer [1] [[1]; [-1]] (Some INTERPOLATION)
       average = [1]
  /\ compose_multiple query_composer [1] [[1]; [-1]] (Some INTERPOLATION)
       sequential
     <> compose_multiple query_composer [1] [[1]; [-1]] (Some INTERPOLATION)
          average.
Proof.
  assert (Hone : _normalize [1] = [1]) by (apply normalize_single_pos; lra).
  assert (Hneg : _normalize [-1] = [-1]) by (apply normalize_single_neg; lra).
  assert (Hstep1 : compose query_composer [1] [1] (Some INTERPOLATION) = [1]).
  { unfold compose. simpl default. rewrite Hone.
    unfold _interpolation_compose. rewrite interpolation_self. exact Hone. }
  assert (Hseq : compose_multiple query_composer [1] [[1]; [-1]]
                   (Some INTERPOLATION) sequential = [-1]).
  { unfold compose_multiple. cbn [foldl]. rewrite Hstep1.
    unfold compose. simpl default. rewrite Hone, Hneg.
    unfold _interpolation_compose, query_composer. cbn.
    apply normalize_single_neg. lra. }
  assert (Havg : compose_multiple query_composer [1] [[1]; [-1]]
                   (Some INTERPOLATION) average = [1]).
  { unfold compose_multiple.
    assert (Hmean : mean_rows [[1]; [-1]] = [0]).
    { unfold mean_rows. cbn. f_equal. lra. }
    rewrite Hmean. unfold compose. simpl default.
    rewrite Hone, normalize_single_zero.
    unfold _interpolation_compose, query_composer. cbn.
    apply normalize_single_pos. lra. }
  split; [exact Hseq|]. split; [exact Havg|].
  rewrite Hseq, Havg. intros H. injection H as H. lra.
Qed.

(** X4: [compose_multiple] without text vectors returns the normalized
    query; with a single text vector both aggregation modes return what
    [compose] returns for it; with two text vectors the modes are
    different operations: there are inputs on which they disagree. *)
Theorem compose_multiple_aggregation :
  (forall (self : QueryComposer) (q t : vec) (m : option CompositionMethod)
          (agg : Aggregation),
     compose_multiple self q [] m agg = _normalize q
     /\ compose_multiple self q [t] m agg = compose self q t m)
  /\ (exists (self : QueryComposer) (q t1 t2 : vec)
             (m : option CompositionMethod),
        compose_multiple self q [t1; t2] m sequential
        <> compose_multiple self q [t1; t2] m average).
Proof.
  split; [apply compose_multiple_small_cases|].
  exists query_composer, [1], [1], [-1], (Some INTERPOLATION).
  apply interpolation_modes_differ.
Qed.

(** ** Query shift *)

Lemma norm_sqr v : norm v * norm v = dot v v.
Proof. unfold norm. apply sqrt_sqrt, dot_self_nonneg. Qed.

Lemma dot_vsub_self a b :
  length a = length b ->
  dot (vsub b a) (vsub b a) = dot b b - 2 * dot a b + dot a a.
Proof.
  intros H. symmetry in H.
  rewrite dot_vsub_l by exact H.
  rewrite (dot_comm b (vsub b a)), (dot_comm a (vsub b a)).
  rewrite !dot_vsub_l by exact H.
  rewrite (dot_comm b a). lra.
Qed.

(** X5: for an original and a refined query of norm 1 and the same
    dimension, the metrics of [compute_query_shift] are tied together:
    distance squared is 2 - 2.similarity, the similarity lies in [-1, 1],
    the distance in [0, 2], and the shift magnitude is the distance. *)
Theorem query_shift_of_unit_vectors :
  forall (a b : vec),
    length a = length b -> norm a = 1 -> norm b = 1 ->
    let sh := compute_query_shift a b in
    distance sh * distance sh = 2 - 2 * similarity sh
    /\ -1 <= similarity sh <= 1
    /\ 0 <= distance sh <= 2
    /\ shift_magnitude sh = distance sh.
Proof.
  intros a b Hlen Ha Hb. simpl.
  pose proof (dot_unit_bounds a b Ha Hb) as Hsim.
  pose proof (norm_nonneg (vsub b a)) as Hd.
  assert (Hsq : norm (vsub b a) * norm (vsub b a) = 2 - 2 * dot a b).
  { rewrite norm_sqr, (dot_vsub_self a b Hlen).
    rewrite (norm_one_dot a Ha), (norm_one_dot b Hb). lra. }
  repeat split; try assumption; try lra. nra.
Qed.

Lemma query_shift_of_unit_vectors_witness :
  let sh := compute_query_shift [1; 0] [0; 1] in
  distance sh * distance sh = 2 - 2 * similarity sh
  /\ -1 <= similarity sh <= 1
  /\ 0 <= distance sh <= 2
  /\ shift_magnitude sh = distance sh.
Proof.
  apply (query_shift_of_unit_vectors [1; 0] [0; 1]).
  - reflexivity.
  - exact norm_1_0.
  - exact norm_0_1.
Defined.

(** ** Combining image and text features *)




(** ** The order of the feedback vectors *)

Lemma vadd_comm u v : vadd u v = vadd v u.
Proof.
  revert v. induction u as [|a u IH]; intros [|b v]; try reflexivity.
  change (a + b :: vadd u v = b + a :: vadd v u). rewrite IH. f_equal. lra.
Qed.

Lemma vadd_assoc u v w : vadd u (vadd v w) = vadd (vadd u v) w.
Proof.
  revert v w. induction u as [|a u IH]; intros [|b v] [|c w];
    try reflexivity.
  change (a + (b + c) :: vadd u (vadd v w)
          = a + b + c :: vadd (vadd u v) w).
  rewrite IH. f_equal. lra.
Qed.

Lemma foldl_vadd_shift r a rs :
  foldl vadd (vadd r a) rs = vadd r (foldl vadd a rs).
Proof.
  revert a. induction rs as [|b rs IH]; intros a; simpl; [reflexivity|].
  rewrite <- vadd_assoc. apply IH.
Qed.

Lemma column_sum_cons r a rs :
  column_sum (r :: a :: rs) = vadd r (column_sum (a :: rs)).
Proof. simpl. apply foldl_vadd_shift. Qed.

Lemma column_sum_perm rows rows' :
  Permutation rows rows' -> column_sum rows = column_sum rows'.
Proof.
  induction 1 as [|r l l' Hperm IH|r1 r2 l|l1 l2 l3 H12 IH12 H23 IH23].
  - reflexivity.
  - destruct l as [|a l], l' as [|a' l'].
    + reflexivity.
    + apply Permutation_nil_l in Hperm. discriminate Hperm.
    + apply Permutation_nil_r in Hperm. discriminate Hperm.
    + rewrite !column_sum_cons, IH. reflexivity.
  - destruct l as [|a l].
    + simpl. apply vadd_comm.
    + rewrite !(column_sum_cons _ _ (a :: l)), !column_sum_cons.
      rewrite !vadd_assoc, (vadd_comm r1 r2). reflexivity.
  - congruence.
Qed.

Lemma mean_rows_column_sum rows :
  mean_rows rows = vdiv (column_sum rows) (INR (length rows)).
Proof. destruct rows; reflexivity. Qed.

Lemma mean_rows_perm rows rows' :
  Permutation rows rows' -> mean_rows rows = mean_rows rows'.
Proof.
  intros H. rewrite !mean_rows_column_sum.
  rewrite (column_sum_perm rows rows' H), (Permutation_length H). reflexivity.
Qed.

Lemma has_rows_perm rows rows' :
  Permutation rows rows' -> has_rows (Some rows) = has_rows (Some rows').
Proof. intros H. simpl. rewrite (Permutation_length H). reflexivity. Qed.

(** X7: the result of [refine_query] does not depend on the order in which
    the relevant vectors, or the non-relevant vectors, are listed. *)
Theorem refine_query_order_independent :
  forall (self : RocchioAlgorithm) (q : vec) (rel rel' nonrel nonrel'
         : list vec) (t : option vec) (w : R),
    Permutation rel rel' ->
    Permutation nonrel nonrel' ->
    refine_query self q (Some rel) (Some nonrel) t w
    = refine_query self q (Some rel') (Some nonrel') t w.
Proof.
  intros self q rel rel' nonrel nonrel' t w Hrel Hnon.
  unfold refine_query.
  rewrite (has_rows_perm rel rel' Hrel), (has_rows_perm nonrel nonrel' Hnon).
  change (rows_of (Some rel)) with rel.
  change (rows_of (Some rel')) with rel'.
  change (rows_of (Some nonrel)) with nonrel.
  change (rows_of (Some nonrel')) with nonrel'.
  rewrite (mean_rows_perm rel rel' Hrel), (mean_rows_perm nonrel nonrel' Hnon).
  reflexivity.
Qed.

Lemma refine_query_order_independent_witness :
  refine_query rocchio [1; 0] (Some [[1; 0]; [0; 1]]) (Some []) None
    default_text_weight
  = refine_query rocchio [1; 0] (Some [[0; 1]; [1; 0]]) (Some []) None
      default_text_weight.
Proof.
  apply (refine_query_order_independent rocchio [1; 0] [[1; 0]; [0; 1]]
           [[0; 1]; [1; 0]] [] [] None default_text_weight).
  - apply perm_swap.
  - apply perm_nil.
Defined.

(** ** The store: what a successful insert leaves behind *)

Lemma add_loop_added_inv start pairs :
  forall (i : nat) (ml : option (list meta)) (s s' : VectorStore),
    add_loop start i pairs ml s = Added s' ->
    dimension s' = dimension s
    /\ index s' = index s
    /\ map image_id (images s') = map image_id (images s) ++ map fst pairs
    /\ (forall id j, last_at (map fst pairs) id j ->
          id_to_idx s' !! id = Some (start + i + j)%nat)
    /\ (forall id, id ∉ map fst pairs ->
          id_to_idx s' !! id = id_to_idx s !! id).
Proof.
  induction pairs as [|[id0 fname] pairs IH]; intros i ml s s' Hrun.
  - simpl in Hrun. injection Hrun as <-. simpl. rewrite app_nil_r.
    repeat split. intros id j [Hj _]. destruct j; discriminate Hj.
  - simpl in Hrun. destruct (metadata_at ml i) as [m| |]; try discriminate Hrun.
    apply IH in Hrun as (Hdim & Hidx & Himg & Hlast & Hother).
    simpl in Hdim, Hidx, Himg, Hother.
    split; [exact Hdim|]. split; [exact Hidx|]. split; [|split].
    + rewrite Himg, map_app, <- app_assoc. reflexivity.
    + intros id j Hj.
      apply last_at_cons_inv in Hj as [(-> & -> & Hnotin)|(j' & -> & Hj')].
      * rewrite Hother by exact Hnotin. rewrite lookup_insert_eq.
        f_equal. lia.
      * rewrite (Hlast id j' Hj'). f_equal. lia.
    + intros id Hnotin. apply not_elem_of_cons in Hnotin as [Hne Hnotin].
      rewrite Hother by exact Hnotin. apply lookup_insert_ne.
      intros Heq. apply Hne. symmetry. exact Heq.
Qed.

Lemma unit_rows_inv rows rows' :
  unit_rows rows = Ok rows' ->
  Forall (fun r => norm r <> 0) rows
  /\ rows' = map (fun r => vdiv r (norm r)) rows.
Proof.
  revert rows'. induction rows as [|r rows IH]; intros rows' H; simpl in H.
  - injection H as <-. split; [constructor|reflexivity].
  - unfold unit_scale in H.
    destruct (Req_dec_T (norm r) 0) as [Hz|Hnz]; [discriminate H|].
    simpl in H. destruct (unit_rows rows) as [rows''| |]; try discriminate H.
    simpl in H. injection H as <-.
    destruct (IH rows'' eq_refl) as [Hall ->].
    split; [constructor; assumption|reflexivity].
Qed.

Lemma forallb_dimension_inv (d : nat) (rows : list vec) :
  forallb (fun r => Nat.eqb (length r) d) rows = true ->
  Forall (fun r => length r = d) rows.
Proof.
  intros H. apply Forall_forall. intros r Hr.
  rewrite forallb_forall in H. apply Nat.eqb_eq, H.
  apply list_elem_of_In. exact Hr.
Qed.

Lemma add_vectors_added_inv s rows ids fnames ml s' :
  add_vectors s (Array2 rows) ids fnames ml = Added s' ->
  Forall (fun r => norm r <> 0) rows
  /\ Forall (fun r => length r = dimension s) rows
  /\ dimension s' = dimension s
  /\ index s' = index s ++ map (fun r => vdiv r (norm r)) rows
  /\ map image_id (images s')
     = map image_id (images s) ++ map fst (zip ids fnames)
  /\ (forall id j, last_at (map fst (zip ids fnames)) id j ->
        id_to_idx s' !! id = Some (ntotal (index s) + j)%nat)
  /\ (forall id, id ∉ map fst (zip ids fnames) ->
        id_to_idx s' !! id = id_to_idx s !! id).
Proof.
  unfold add_vectors. intros Hrun.
  destruct (forallb (fun r => Nat.eqb (length r) (dimension s)) rows) eqn:Hd;
    [|discriminate Hrun].
  apply forallb_dimension_inv in Hd.
  destruct (unit_rows rows) as [rows'| |] eqn:Hunit; try discriminate Hrun.
  apply unit_rows_inv in Hunit as [Hnz ->].
  apply add_loop_added_inv in Hrun as (Hdim & Hidx & Himg & Hlast & Hother).
  simpl in Hdim, Hidx, Himg, Hother.
  repeat split; try assumption.
  intros id j Hj. rewrite (Hlast id j Hj). f_equal. lia.
Qed.

Lemma exists_last_at (ids : list string) (id : string) :
  id ∈ ids -> exists j, last_at ids id j.
Proof.
  induction ids as [|id0 ids IH]; intros Hin.
  - apply elem_of_nil in Hin. contradiction.
  - destruct (decide (id ∈ ids)) as [Hlater|Hnot].
    + destruct (IH Hlater) as (j & Hj & Hafter).
      exists (S j). split; [exact Hj|].
      intros k Hk. destruct k as [|k]; [lia|]. apply Hafter. lia.
    + apply elem_of_cons in Hin as [->|Hin]; [|contradiction].
      exists 0%nat. split; [reflexivity|].
      intros k Hk Hlook. destruct k as [|k]; [lia|]. simpl in Hlook.
      apply Hnot. apply list_elem_of_lookup. eauto.
Qed.

Lemma last_at_lt (ids : list string) id j :
  last_at ids id j -> (j < length ids)%nat.
Proof. intros [Hj _]. apply lookup_lt_Some in Hj. exact Hj. Qed.



(** ** The store: invariants of well-formed inserts *)

Lemma add_vectors_slots_valid s rows ids fnames ml s' :
  slots_valid s ->
  length rows = length ids ->
  length ids = length fnames ->
  add_vectors s (Array2 rows) ids fnames ml = Added s' ->
  slots_valid s'.
Proof.
  intros Hvalid Hrows Hlen Hadd id i Hi.
  apply add_vectors_added_inv in Hadd
    as (_ & _ & _ & Hidx & _ & Hlast & Hother).
  rewrite (fst_zip_same_length ids fnames Hlen) in Hlast, Hother.
  assert (Htotal : ntotal (index s')
                   = (ntotal (index s) + length rows)%nat).
  { unfold ntotal. rewrite Hidx, length_app, length_map. reflexivity. }
  rewrite Htotal.
  destruct (decide (id ∈ ids)) as [Hin|Hnotin].
  - destruct (exists_last_at ids id Hin) as [j Hj].
    rewrite (Hlast id j Hj) in Hi. injection Hi as <-.
    apply last_at_lt in Hj. lia.
  - rewrite (Hother id Hnotin) in Hi. apply Hvalid in Hi. lia.
Qed.

Lemma add_vectors_rows_unit s rows ids fnames ml s' :
  rows_unit s ->
  add_vectors s (Array2 rows) ids fnames ml = Added s' ->
  rows_unit s'.
Proof.
  unfold rows_unit. intros Hunit Hadd.
  apply add_vectors_added_inv in Hadd as (Hnz & _ & _ & Hidx & _).
  rewrite Hidx. apply Forall_app. split; [exact Hunit|].
  apply Forall_map. eapply Forall_impl; [exact Hnz|].
  intros r Hr. simpl. apply norm_vdiv_self, Hr.
Qed.

Lemma add_vectors_rows_dimension s rows ids fnames ml s' :
  Forall (fun r => length r = dimension s) (index s) ->
  add_vectors s (Array2 rows) ids fnames ml = Added s' ->
  Forall (fun r => length r = dimension s') (index s').
Proof.
  intros Hdims Hadd.
  apply add_vectors_added_inv in Hadd as (_ & Hd & Hdim & Hidx & _).
  rewrite Hidx, Hdim. apply Forall_app. split; [exact Hdims|].
  apply Forall_map. eapply Forall_impl; [exact Hd|].
  intros r Hr. simpl. rewrite length_vdiv. exact Hr.
Qed.

Lemma get_vector_no_raise s id :
  slots_valid s ->
  get_vector s id
  = Ok (match id_to_idx s !! id with
        | Some i => index s !! i
        | None => None
        end)
  /\ (forall i, id_to_idx s !! id = Some i -> is_Some (index s !! i)).
Proof.
  intros Hvalid. unfold get_vector, index_reconstruct.
  destruct (id_to_idx s !! id) as [i|] eqn:Hi.
  - destruct (lookup_lt_is_Some_2 (index s) i (Hvalid id i Hi)) as [v Hv].
    assert (Hv' : index s !! i = Some v) by exact Hv.
    rewrite Hv'. split; [reflexivity|].
    intros i' [= <-]. rewrite Hv'. eauto.
  - split; [reflexivity|]. intros i' H. discriminate H.
Qed.


Lemma store_built_basic_invariants s :
  store_built s ->
  in_step s /\ slots_valid s /\ rows_unit s
  /\ Forall (fun r => length r = dimension s) (index s).
Proof.
  induction 1 as [d|s rows ids fnames ml s' _ IH _ Hrows Hlen Hadd].
  - split; [reflexivity|]. split; [|split; constructor].
    intros id i Hi. simpl in Hi. rewrite lookup_empty in Hi. discriminate Hi.
  - destruct IH as (Hstep & Hvalid & Hunit & Hdims).
    split; [exact (add_vectors_in_step s rows ids fnames ml s' Hstep Hrows
                     Hlen Hadd)|].
    split; [exact (add_vectors_slots_valid s rows ids fnames ml s' Hvalid
                     Hrows Hlen Hadd)|].
    split; [exact (add_vectors_rows_unit s rows ids fnames ml s' Hunit
                     Hadd)|].
    exact (add_vectors_rows_dimension s rows ids fnames ml s' Hdims Hadd).
Qed.



(** ** The store: what the results of a search are *)










(** ** The store: failed inserts *)

Lemma forallb_dimension_false (d : nat) (rows : list vec) :
  Exists (fun r => length r <> d) rows ->
  forallb (fun r => Nat.eqb (length r) d) rows = false.
Proof.
  induction 1 as [r rows Hr|r rows _ IH]; simpl.
  - apply Nat.eqb_neq in Hr. rewrite Hr. reflexivity.
  - rewrite IH. apply andb_false_r.
Qed.

Lemma metadata_at_some (m0 : meta) (ml : list meta) (i : nat) :
  metadata_at (Some (m0 :: ml)) i
  = match (m0 :: ml) !! i with
    | Some m => Ok m
    | None => Raise IndexError
    end.
Proof. reflexivity. Qed.

Lemma add_loop_short_metadata start m0 ml' pairs :
  forall (i : nat) (s : VectorStore),
    (i <= S (length ml'))%nat ->
    (S (length ml') < i + length pairs)%nat ->
    exists s',
      add_loop start i pairs (Some (m0 :: ml')) s = Failed IndexError s'
      /\ index s' = index s
      /\ length (images s')
         = (length (images s) + (S (length ml') - i))%nat
      /\ (forall idf, pairs !! (S (length ml') - i)%nat = Some idf ->
            id_to_idx s' !! fst idf = Some (start + S (length ml'))%nat).
Proof.
  induction pairs as [|[id0 fname] pairs IH]; intros i s Hi Hshort.
  - simpl in Hshort. lia.
  - cbn [add_loop]. rewrite metadata_at_some.
    destruct ((m0 :: ml') !! i) as [m|] eqn:Hm.
    + apply lookup_lt_Some in Hm. simpl in Hm.
      match goal with
      | |- exists s', add_loop _ _ _ _ ?s1 = _ /\ _ =>
          destruct (IH (S i) s1) as (s' & Hrun & Hidx & Himg & Hid)
      end.
      { lia. }
      { simpl in Hshort. lia. }
      simpl in Hidx, Himg.
      exists s'. split; [exact Hrun|]. split; [exact Hidx|]. split.
      * rewrite Himg, length_app. simpl. lia.
      * intros idf Hidf. apply Hid.
        replace (S (length ml') - i)%nat
          with (S (S (length ml') - S i)) in Hidf by lia.
        exact Hidf.
    + apply lookup_ge_None in Hm. simpl in Hm.
      assert (i = S (length ml')) as -> by lia.
      eexists. split; [reflexivity|]. simpl.
      split; [reflexivity|]. split; [lia|].
      rewrite Nat.sub_diag. intros idf [= <-]. simpl.
      apply lookup_insert_eq.
Qed.

(** X12: the two ways [add_vectors] fails are not alike.  A batch with a
    row of the wrong dimension raises before anything is stored, and the
    store is unchanged.  A batch with a non-empty metadata list shorter
    than the batch raises IndexError after the rows have been given to the
    engine: all rows are stored, only as many metadata entries as there
    was metadata are appended, the id at the failing position already
    points at its slot, and a store that was in step is so no longer. *)
Theorem add_vectors_failure_modes :
  forall (s : VectorStore) (rows : list vec) (ids fnames : list string),
    (forall ml,
       Exists (fun r => length r <> dimension s) rows ->
       add_vectors s (Array2 rows) ids fnames ml = Failed AssertionError s)
    /\ (forall m0 ml',
          let ml := m0 :: ml' in
          Forall (fun r => norm r <> 0) rows ->
          Forall (fun r => length r = dimension s) rows ->
          length rows = length ids ->
          length ids = length fnames ->
          (length ml < length ids)%nat ->
          exists s',
            add_vectors s (Array2 rows) ids fnames (Some ml)
            = Failed IndexError s'
            /\ index s' = index s ++ map (fun r => vdiv r (norm r)) rows
            /\ length (images s') = (length (images s) + length ml)%nat
            /\ (forall id, ids !! length ml = Some id ->
                  id_to_idx s' !! id
                  = Some (ntotal (index s) + length ml)%nat)
            /\ (in_step s -> ~ in_step s')).
Proof.
  intros s rows ids fnames. split.
  - intros ml Hbad. unfold add_vectors.
    rewrite (forallb_dimension_false _ rows Hbad). reflexivity.
  - intros m0 ml' ml Hnz Hdim Hrows Hlen Hshort. unfold add_vectors.
    rewrite (forallb_dimension _ rows Hdim), (unit_rows_ok rows Hnz).
    match goal with
    | |- exists s', add_loop ?st 0 ?ps _ ?s1 = _ /\ _ =>
        destruct (add_loop_short_metadata st m0 ml' ps 0%nat s1)
          as (s' & Hrun & Hidx & Himg & Hid)
    end.
    { lia. }
    { rewrite length_zip, <- Hlen, Nat.min_id. exact Hshort. }
    simpl in Hidx, Himg.
    rewrite ?Nat.sub_0_r in Himg. rewrite ?Nat.sub_0_r in Hid.
    change (S (length ml')) with (length ml) in Himg, Hid.
    exists s'. split; [exact Hrun|]. split; [exact Hidx|].
    split; [exact Himg|]. split.
    + intros id Hidl.
      assert (Hf : is_Some (fnames !! length ml)).
      { apply lookup_lt_is_Some_2. rewrite <- Hlen.
        apply lookup_lt_Some in Hidl. exact Hidl. }
      destruct Hf as [f Hf].
      apply (Hid (id, f)). apply lookup_zip_with_Some. eauto.
    + unfold in_step, ntotal. intros Hstep Hstep'.
      rewrite Himg, Hidx, length_app, length_map in Hstep'. lia.
Qed.

Lemma add_vectors_failure_modes_witness :
  add_vectors store_A (Array2 [[1; 0; 0]]) ["B"] ["b.jpg"] None
  = Failed AssertionError store_A
  /\ exists s',
       add_vectors store_A (Array2 [[0; 1]; [0; 1]]) ["B"; "C"]
         ["b.jpg"; "c.jpg"] (Some [[]]) = Failed IndexError s'
       /\ total_images s' = 3%nat
       /\ length (images s') = 2%nat
       /\ id_to_idx s' !! "C" = Some 2%nat.
Proof.
  destruct (add_vectors_failure_modes store_A [[1; 0; 0]] ["B"] ["b.jpg"])
    as [Hdim _].
  destruct (add_vectors_failure_modes store_A [[0; 1]; [0; 1]] ["B"; "C"]
              ["b.jpg"; "c.jpg"]) as [_ Hmeta].
  split.
  - apply Hdim. constructor. simpl. lia.
  - destruct (Hmeta [] []) as (s' & Hrun & Hidx & Himg & Hid & _).
    + repeat constructor; rewrite norm_0_1; lra.
    + repeat constructor.
    + reflexivity.
    + reflexivity.
    + simpl. lia.
    + exists s'. split; [exact Hrun|]. split; [|split].
      * unfold total_images, ntotal. rewrite Hidx. reflexivity.
      * rewrite Himg. reflexivity.
      * apply (Hid "C"). reflexivity.
Defined.

(** ** The store: unknown ids and the cleared store *)

Lemma outcome_bind_ret {A} (m : outcome A) : (a ← m; mret a) = m.
Proof. destruct m; reflexivity. Qed.

Lemma get_vectors_known_only s ids :
  get_vectors s ids = get_vectors s (known_ids s ids).
Proof.
  induction ids as [|id ids IH]; [reflexivity|].
  unfold known_ids. cbn [List.filter get_vectors]. fold (known_ids s ids).
  destruct (id_to_idx s !! id) as [i|] eqn:Hi.
  - rewrite bool_decide_eq_true_2 by eauto. cbn [get_vectors].
    rewrite IH. reflexivity.
  - rewrite bool_decide_eq_false_2 by (intros [x Hx]; discriminate Hx).
    unfold get_vector. rewrite Hi. outcome_step. rewrite <- IH.
    destruct (get_vectors s ids); reflexivity.
Qed.

Lemma get_vectors_all_known s ids :
  slots_valid s ->
  Forall (fun id => is_Some (id_to_idx s !! id)) ids ->
  exists vs, get_vectors s ids = Ok vs /\ length vs = length ids.
Proof.
  intros Hvalid. induction 1 as [|id ids [i Hi] Hids (vs & IH & Hlen)].
  - exists []. split; reflexivity.
  - cbn [get_vectors]. destruct (get_vector_no_raise s id Hvalid) as [-> Hsome].
    destruct (Hsome i Hi) as [v Hv]. rewrite Hi.
    assert (Hv' : index s !! i = Some v) by exact Hv. rewrite Hv'.
    outcome_step. rewrite IH. exists (v :: vs).
    split; [reflexivity|simpl; lia].
Qed.

(** X13: [get_vectors] skips the ids the store has no slot for: asking for
    a list of ids gives the same answer as asking for the known ones among
    them, and on a store whose recorded slots are all slots of stored rows
    that answer is a normal return with exactly one vector per known id. *)
Theorem get_vectors_skips_unknown_ids :
  forall (s : VectorStore) (ids : list string),
    get_vectors s ids = get_vectors s (known_ids s ids)
    /\ (slots_valid s ->
        exists vs,
          get_vectors s ids = Ok vs
          /\ length vs = length (known_ids s ids)
          /\ (length vs <= length ids)%nat).
Proof.
  intros s ids. split; [apply get_vectors_known_only|].
  intros Hvalid. rewrite get_vectors_known_only.
  destruct (get_vectors_all_known s (known_ids s ids) Hvalid)
    as (vs & Hvs & Hlen).
  { apply Forall_forall. intros id Hid. unfold known_ids in Hid.
    apply list_elem_of_In, filter_In in Hid as [_ Hid].
    apply bool_decide_eq_true in Hid. exact Hid. }
  exists vs. split; [exact Hvs|]. split; [exact Hlen|].
  rewrite Hlen. unfold known_ids. apply filter_length_le.
Qed.

Lemma get_vectors_skips_unknown_ids_witness :
  get_vectors store_A ["A"; "ghost"] = get_vectors store_A ["A"]
  /\ exists vs,
       get_vectors store_A ["A"; "ghost"] = Ok vs
       /\ length vs = 1%nat.
Proof.
  destruct (get_vectors_skips_unknown_ids store_A ["A"; "ghost"])
    as [Hsame Hcount].
  split; [exact Hsame|].
  destruct Hcount as (vs & Hvs & Hlen & _).
  - apply (store_built_basic_invariants store_A store_A_built).
  - exists vs. split; [exact Hvs|exact Hlen].
Defined.

(** [clear] gives back an empty store of the same dimension: it holds no
    images, every search on it returns the empty answer, no id has a
    vector any more, and well-formed inserts can build on it again. *)
Lemma clear_empties_the_store :
  forall (s : VectorStore),
    total_images (clear s) = 0%nat
    /\ dimension (clear s) = dimension s
    /\ (forall q k, search (clear s) q k = Ok ([], [], []))
    /\ (forall id, get_vector (clear s) id = Ok None)
    /\ (forall ids, get_vectors (clear s) ids = Ok [])
    /\ store_built (clear s).
Proof.
  intros s. split; [reflexivity|]. split; [reflexivity|].
  split; [reflexivity|].
  assert (Hnone : forall id, get_vector (clear s) id = Ok None).
  { intros id. unfold get_vector. simpl. rewrite lookup_empty. reflexivity. }
  split; [exact Hnone|]. split; [|apply built_empty].
  intros ids. induction ids as [|id ids IH]; [reflexivity|].
  cbn [get_vectors]. rewrite Hnone, IH. reflexivity.
Qed.

(** ** The session manager: single operations *)

(** X14: [add_iteration] raises ValueError exactly when the session is
    unknown.  On a known session it returns the old number of iterations
    plus one, appends one iteration after the old ones, which stay as they
    were, makes the given vector the session's current query vector, and
    touches no other session. *)
Theorem add_iteration_behaviour :
  forall (sm : SessionManager) (sid : string) (qv : vec) (qtype : string)
         (res : list string) (p n : option (list string))
         (t : option string) (now : Z),
    (sessions sm !! sid = None <->
     add_iteration sm sid qv qtype res p n t now = Raise ValueError)
    /\ (forall s, sessions sm !! sid = Some s ->
          exists sm' s' new,
            add_iteration sm sid qv qtype res p n t now
            = Ok (sm', (length (iterations s) + 1)%nat)
            /\ sessions sm' !! sid = Some s'
            /\ iterations s' = iterations s ++ [new]
            /\ iteration new = (length (iterations s) + 1)%nat
            /\ current_query_vector s' = Some qv
            /\ (forall sid', sid' <> sid ->
                  sessions sm' !! sid' = sessions sm !! sid')).
Proof.
  intros sm sid qv qtype res p n t now. split.
  - unfold add_iteration. destruct (sessions sm !! sid); split; intros H;
      try reflexivity; discriminate H.
  - intros s Hs.
    rewrite (add_iteration_appends sm sid s qv qtype res p n t now Hs).
    eexists _, _, _. split; [reflexivity|]. cbn [sessions].
    split; [apply lookup_insert_eq|]. cbn [iterations].
    split; [reflexivity|]. split; [reflexivity|]. split.
    + unfold current_query_vector. cbn [iterations].
      rewrite last_snoc. reflexivity.
    + intros sid' Hne. apply lookup_insert_ne. congruence.
Qed.

Lemma with_feedback_twice p n t p' n' t' it :
  with_feedback p' n' t' (with_feedback p n t it) = with_feedback p' n' t' it.
Proof. reflexivity. Qed.

Lemma last_is_Some_alter {A} (f : A -> A) (k : nat) (l : list A) (a : A) :
  last l = Some a -> exists b, last (alter f k l) = Some b.
Proof.
  intros H. rewrite last_lookup in H. apply lookup_lt_Some in H.
  rewrite last_lookup, length_alter. apply lookup_lt_is_Some.
  rewrite length_alter. exact H.
Qed.

Lemma alter_alter_same {A} (f g h : A -> A) (k : nat) (l : list A) :
  (forall a, g (f a) = h a) ->
  alter g k (alter f k l) = alter h k l.
Proof.
  intros Hgf. revert k. induction l as [|a l IH]; intros [|k];
    try reflexivity.
  - simpl. rewrite Hgf. reflexivity.
  - simpl. f_equal. apply IH.
Qed.

Lemma alter_last_snoc {A} (f : A -> A) (l : list A) (a : A) :
  alter f (length (l ++ [a]) - 1)%nat (l ++ [a]) = l ++ [f a].
Proof.
  rewrite length_app. simpl.
  replace (length l + 1 - 1)%nat with (length l + 0)%nat by lia.
  rewrite alter_app_r. reflexivity.
Qed.

(** X15: [update_last_iteration_feedback] changes nothing when the session
    is unknown or has no iterations.  Otherwise it rewrites the three
    feedback fields of the last iteration and nothing else: the earlier
    iterations, the other fields of the last one and the other sessions
    stay as they were; and a second call overwrites the first. *)
Theorem update_last_iteration_feedback_behaviour :
  forall (sm : SessionManager) (sid : string) (p n : list string)
         (t : option string),
    (sessions sm !! sid = None ->
     update_last_iteration_feedback sm sid p n t = sm)
    /\ (forall s, sessions sm !! sid = Some s -> iterations s = [] ->
          update_last_iteration_feedback sm sid p n t = sm)
    /\ (forall s its last_it,
          sessions sm !! sid = Some s ->
          iterations s = its ++ [last_it] ->
          sessions (update_last_iteration_feedback sm sid p n t) !! sid
          = Some {| session_id := session_id s;
                    created_at := created_at s;
                    iterations := its ++ [with_feedback p n t last_it] |})
    /\ (forall sid', sid' <> sid ->
          sessions (update_last_iteration_feedback sm sid p n t) !! sid'
          = sessions sm !! sid')
    /\ (forall p' n' t',
          update_last_iteration_feedback
            (update_last_iteration_feedback sm sid p n t) sid p' n' t'
          = update_last_iteration_feedback sm sid p' n' t').
Proof.
  intros sm sid p n t. split; [|split; [|split; [|split]]].
  - intros Hs. unfold update_last_iteration_feedback. rewrite Hs.
    reflexivity.
  - intros s Hs Hits. unfold update_last_iteration_feedback.
    rewrite Hs, Hits. reflexivity.
  - intros s its last_it Hs Hits.
    rewrite (update_last_iteration_feedback_some sm sid s last_it p n t Hs)
      by (rewrite Hits; apply last_snoc).
    cbn [sessions]. rewrite lookup_insert_eq, Hits, alter_last_snoc.
    reflexivity.
  - intros sid' Hne. unfold update_last_iteration_feedback.
    destruct (sessions sm !! sid) as [s|]; [|reflexivity].
    destruct (last (iterations s)); [|reflexivity].
    cbn [sessions]. apply lookup_insert_ne. congruence.
  - intros p' n' t'.
    destruct (sessions sm !! sid) as [s|] eqn:Hs.
    2:{ unfold update_last_iteration_feedback. rewrite Hs.
        cbn [sessions]. rewrite Hs. reflexivity. }
    destruct (last (iterations s)) as [last_it|] eqn:Hlast.
    2:{ unfold update_last_iteration_feedback. rewrite Hs, Hlast.
        cbn [sessions]. rewrite Hs, Hlast. reflexivity. }
    rewrite (update_last_iteration_feedback_some sm sid s last_it p n t Hs
               Hlast).
    rewrite (update_last_iteration_feedback_some sm sid s last_it p' n' t' Hs
               Hlast).
    destruct (last_is_Some_alter (with_feedback p n t)
                (length (iterations s) - 1)%nat (iterations s) last_it Hlast)
      as [b Hb].
    erewrite update_last_iteration_feedback_some;
      [|apply lookup_insert_eq|exact Hb].
    cbn [sessions session_id created_at iterations].
    rewrite insert_insert_eq, length_alter.
    f_equal. f_equal. f_equal. apply alter_alter_same.
    intros it. reflexivity.
Qed.

(** X16: [get_or_create_session] always returns an id that has a session
    in the returned manager.  For a non-empty id that is known, it returns
    that id and the manager unchanged; in every other case, an absent id,
    an unknown id or the empty string, it returns the fresh id with an
    empty session created at the clock reading, and no session under
    another id is touched. *)
Theorem get_or_create_session_behaviour :
  forall (sm : SessionManager) (sid : option string) (new_id : string)
         (now : Z),
    let known :=
      match sid with
      | Some x => x <> "" /\ is_Some (sessions sm !! x)
      | None => False
      end in
    let out := get_or_create_session sm sid new_id now in
    is_Some (sessions (fst out) !! snd out)
    /\ (known -> fst out = sm /\ Some (snd out) = sid)
    /\ (~ known ->
        snd out = new_id
        /\ sessions (fst out) !! new_id
           = Some {| session_id := new_id; created_at := now;
                     iterations := [] |}
        /\ forall other, other <> new_id ->
             sessions (fst out) !! other = sessions sm !! other).
Proof.
  intros sm sid new_id now known out.
  assert (Hcreate :
    let c := create_session sm new_id now in
    snd c = new_id
    /\ sessions (fst c) !! new_id
       = Some {| session_id := new_id; created_at := now; iterations := [] |}
    /\ forall other, other <> new_id ->
         sessions (fst c) !! other = sessions sm !! other).
  { simpl. split; [reflexivity|]. split; [apply lookup_insert_eq|].
    intros other Hne. apply lookup_insert_ne. congruence. }
  destruct sid as [x|].
  - subst out known. unfold get_or_create_session.
    destruct (String.eqb_spec x "") as [Hempty|Hnonempty]; cbn [negb andb].
    + split; [|split].
      * destruct Hcreate as (-> & -> & _). eauto.
      * intros [Hne _]. contradiction.
      * intros _. exact Hcreate.
    + destruct (decide (is_Some (sessions sm !! x))) as [Hin|Hout].
      * rewrite bool_decide_eq_true_2 by exact Hin. simpl.
        split; [exact Hin|]. split; [done|].
        intros Hnot. exfalso. apply Hnot. split; assumption.
      * rewrite bool_decide_eq_false_2 by exact Hout.
        split; [|split].
        -- destruct Hcreate as (-> & -> & _). eauto.
        -- intros [_ Hin]. contradiction.
        -- intros _. exact Hcreate.
  - subst out known. unfold get_or_create_session. split; [|split].
    + destruct Hcreate as (-> & -> & _). eauto.
    + intros [].
    + intros _. exact Hcreate.
Qed.

(** ** The session manager: reaping *)

Lemma cleanup_lookup sm max_age now sid s :
  sessions (cleanup_old_sessions sm max_age now) !! sid = Some s
  <-> sessions sm !! sid = Some s
      /\ (now - created_at s <= 3600000000 * max_age)%Z.
Proof.
  unfold cleanup_old_sessions. cbn [sessions].
  rewrite map_lookup_filter_Some. unfold older_than. simpl.
  split; intros [H1 H2]; (split; [exact H1|lia]).
Qed.

(** X17: [cleanup_old_sessions] keeps exactly the sessions whose age is at
    most [max_age_hours], each one unchanged, and adds none; running it
    again at the same clock reading changes nothing more.  With
    [max_age_hours = 0] every session created before the clock reading is
    removed, while a session created at that very reading survives, since
    the comparison is strict. *)
Theorem cleanup_old_sessions_behaviour :
  forall (sm : SessionManager) (max_age now : Z),
    (forall sid s,
       sessions (cleanup_old_sessions sm max_age now) !! sid = Some s
       <-> sessions sm !! sid = Some s
           /\ (now - created_at s <= 3600000000 * max_age)%Z)
    /\ cleanup_old_sessions (cleanup_old_sessions sm max_age now) max_age now
       = cleanup_old_sessions sm max_age now
    /\ (forall sid s,
          sessions sm !! sid = Some s ->
          ((created_at s < now)%Z ->
           sessions (cleanup_old_sessions sm 0 now) !! sid = None)
          /\ (created_at s = now ->
              sessions (cleanup_old_sessions sm 0 now) !! sid = Some s)).
Proof.
  intros sm max_age now. split; [|split].
  - intros sid s. apply cleanup_lookup.
  - unfold cleanup_old_sessions. cbn [sessions]. f_equal.
    apply map_eq. intros sid. apply option_eq. intros s.
    rewrite !map_lookup_filter_Some. tauto.
  - intros sid s Hs. split.
    + intros Hold.
      destruct (sessions (cleanup_old_sessions sm 0 now) !! sid) as [s'|]
        eqn:Hs'; [|reflexivity].
      apply cleanup_lookup in Hs' as [Hs'' Hage].
      rewrite Hs in Hs''. injection Hs'' as <-. lia.
    + intros Hnow. apply cleanup_lookup. split; [exact Hs|lia].
Qed.

(** ** The rounds: the session they leave behind *)

Lemma relevance_feedback_exact enc pca app request now s last_it pv nv found :
  let sid := rf_session_id request in
  let positive_ids :=
    map item_image_id (List.filter is_positive (rf_feedback_items request)) in
  let negative_ids :=
    map item_image_id (List.filter is_negative (rf_feedback_items request)) in
  let refined :=
    feedback_refined_query enc (query_vector last_it) pv nv
      (rf_text_feedback request) in
  sessions (session_manager app) !! sid = Some s ->
  last (iterations s) = Some last_it ->
  rf_feedback_items request <> [] \/ truthy (rf_text_feedback request) = true ->
  vectors_if_any (vector_store app) positive_ids = Ok pv ->
  vectors_if_any (vector_store app) negative_ids = Ok nv ->
  search (vector_store app) refined (Z.pos (rf_top_k request)) = Ok found ->
  exists app' resp,
    relevance_feedback enc pca app request now = Ok (app', resp)
    /\ vector_store app' = vector_store app
    /\ resp_results resp = found
    /\ sessions (session_manager app') !! sid
       = Some {| session_id := session_id s;
                 created_at := created_at s;
                 iterations :=
                   alter (with_feedback positive_ids negative_ids
                            (rf_text_feedback request))
                         (length (iterations s) - 1)%nat (iterations s)
                   ++ [{| iteration := length (iterations s) + 1;
                          query_vector := refined;
                          query_type := "feedback";
                          results := fst (fst found);
                          positive_feedback := positive_ids;
                          negative_feedback := negative_ids;
                          text_feedback := rf_text_feedback request;
                          timestamp := now |}] |}.
Proof.
  intros sid positive_ids negative_ids refined Hs Hlast Hfb Hpos Hneg Hfound.
  unfold relevance_feedback, get_session. fold sid. rewrite Hs.
  rewrite (current_query_vector_last s last_it Hlast).
  replace (bool_decide (rf_feedback_items request = [])
           && negb (truthy (rf_text_feedback request))) with false.
  2:{ destruct Hfb as [Hitems| ->].
      - rewrite bool_decide_eq_false_2 by exact Hitems. reflexivity.
      - rewrite andb_false_r. reflexivity. }
  fold positive_ids negative_ids. rewrite Hpos. outcome_step.
  rewrite Hneg. outcome_step. fold refined. rewrite Hfound. outcome_step.
  rewrite (update_last_iteration_feedback_some _ _ s last_it _ _ _ Hs Hlast).
  erewrite add_iteration_appends by (apply lookup_insert_eq).
  cbn [session_id created_at iterations sessions].
  eexists _, _. split; [reflexivity|].
  cbn [vector_store session_manager sessions resp_results
         create_search_response].
  split; [reflexivity|]. split; [reflexivity|].
  rewrite lookup_insert_eq, length_alter. reflexivity.
Qed.

Lemma pseudo_feedback_exact pca app request now s last_it refined found :
  sessions (session_manager app) !! pf_session_id request = Some s ->
  last (iterations s) = Some last_it ->
  pseudo_refined_query (vector_store app) s (query_vector last_it)
    (pf_top_m request) = Ok refined ->
  search (vector_store app) refined (Z.pos (pf_top_k request)) = Ok found ->
  exists app' resp,
    pseudo_feedback pca app request now = Ok (app', resp)
    /\ vector_store app' = vector_store app
    /\ resp_results resp = found
    /\ sessions (session_manager app') !! pf_session_id request
       = Some {| session_id := session_id s;
                 created_at := created_at s;
                 iterations :=
                   iterations s
                   ++ [{| iteration := length (iterations s) + 1;
                          query_vector := refined;
                          query_type := "pseudo_feedback";
                          results := fst (fst found);
                          positive_feedback := [];
                          negative_feedback := [];
                          text_feedback := None;
                          timestamp := now |}] |}.
Proof.
  intros Hs Hlast Hrefined Hfound.
  unfold pseudo_feedback, get_session. rewrite Hs.
  rewrite (current_query_vector_last s last_it Hlast).
  rewrite Hrefined. outcome_step. rewrite Hfound. outcome_step.
  rewrite (add_iteration_appends _ _ s _ _ _ _ _ _ _ Hs).
  eexists _, _. split; [reflexivity|].
  cbn [vector_store session_manager sessions resp_results
         create_search_response].
  split; [reflexivity|]. split; [reflexivity|].
  rewrite lookup_insert_eq. reflexivity.
Qed.

Lemma last_Some_snoc {A} (l : list A) (a : A) :
  last l = Some a -> exists front, l = front ++ [a].
Proof.
  intros H. destruct l as [|b l _] using rev_ind; [discriminate H|].
  rewrite last_snoc in H. injection H as ->. eauto.
Qed.

Lemma count_app {A} (f : A -> nat) (l1 l2 : list A) :
  foldr Nat.add 0%nat (map f (l1 ++ l2))
  = (foldr Nat.add 0%nat (map f l1) + foldr Nat.add 0%nat (map f l2))%nat.
Proof.
  induction l1 as [|a l1 IH]; simpl; [reflexivity|]. rewrite IH. lia.
Qed.

(** X18: the feedback counts of a session count every feedback id of a
    feedback round twice, once on the iteration that preceded the round
    and once on the iteration the round recorded: after a successful
    round the positive count is the old count, less what the preceding
    iteration carried before, plus twice the number of positive ids of the
    request, and likewise for the negative count.  A pseudo-feedback round
    leaves both counts as they were. *)
Theorem feedback_counts_after_rounds :
  (forall (enc : Encoder) (pca : Reducer) (app : App)
          (request : RelevanceFeedbackRequest) (now : Z) (s : Session)
          (last_it : SearchIteration) (pv nv : option (list vec))
          (found : list string * list R * list ImageData),
     let sid := rf_session_id request in
     let positive_ids :=
       map item_image_id
           (List.filter is_positive (rf_feedback_items request)) in
     let negative_ids :=
       map item_image_id
           (List.filter is_negative (rf_feedback_items request)) in
     let refined :=
       feedback_refined_query enc (query_vector last_it) pv nv
         (rf_text_feedback request) in
     sessions (session_manager app) !! sid = Some s ->
     last (iterations s) = Some last_it ->
     rf_feedback_items request <> []
       \/ truthy (rf_text_feedback request) = true ->
     vectors_if_any (vector_store app) positive_ids = Ok pv ->
     vectors_if_any (vector_store app) negative_ids = Ok nv ->
     search (vector_store app) refined (Z.pos (rf_top_k request)) = Ok found ->
     exists app' resp s',
       relevance_feedback enc pca app request now = Ok (app', resp)
       /\ sessions (session_manager app') !! sid = Some s'
       /\ (fst (get_feedback_counts s')
           + length (positive_feedback last_it)
           = fst (get_feedback_counts s) + 2 * length positive_ids)%nat
       /\ (snd (get_feedback_counts s')
           + length (negative_feedback last_it)
           = snd (get_feedback_counts s) + 2 * length negative_ids)%nat)
  /\ (forall (pca : Reducer) (app : App) (request : PseudoFeedbackRequest)
             (now : Z) (s : Session) (last_it : SearchIteration)
             (refined : vec) (found : list string * list R * list ImageData),
        sessions (session_manager app) !! pf_session_id request = Some s ->
        last (iterations s) = Some last_it ->
        pseudo_refined_query (vector_store app) s (query_vector last_it)
          (pf_top_m request) = Ok refined ->
        search (vector_store app) refined (Z.pos (pf_top_k request)) = Ok found ->
        exists app' resp s',
          pseudo_feedback pca app request now = Ok (app', resp)
          /\ sessions (session_manager app') !! pf_session_id request
             = Some s'
          /\ get_feedback_counts s' = get_feedback_counts s).
Proof.
  split.
  - intros enc pca app request now s last_it pv nv found sid positive_ids
      negative_ids refined Hs Hlast Hfb Hpos Hneg Hfound.
    destruct (relevance_feedback_exact enc pca app request now s last_it pv
                nv found Hs Hlast Hfb Hpos Hneg Hfound)
      as (app' & resp & Hrun & _ & _ & Hs').
    eexists app', resp, _. split; [exact Hrun|]. split; [exact Hs'|].
    destruct (last_Some_snoc _ _ Hlast) as [front Hfront].
    unfold get_feedback_counts. cbn [iterations fst snd].
    rewrite Hfront, alter_last_snoc, !count_app. simpl.
    unfold positive_ids, negative_ids. split; lia.
  - intros pca app request now s last_it refined found Hs Hlast Hrefined
      Hfound.
    destruct (pseudo_feedback_exact pca app request now s last_it refined
                found Hs Hlast Hrefined Hfound)
      as (app' & resp & Hrun & _ & _ & Hs').
    eexists app', resp, _. split; [exact Hrun|]. split; [exact Hs'|].
    unfold get_feedback_counts. cbn [iterations].
    rewrite !count_app. simpl. f_equal; lia.
Qed.

Lemma feedback_counts_after_rounds_witness :
  exists app' resp s',
    relevance_feedback unit_encoder first_two app_A request_positive_A 5
    = Ok (app', resp)
    /\ sessions (session_manager app') !! "s" = Some s'
    /\ get_feedback_counts (session_of [first_iteration]) = (0%nat, 0%nat)
    /\ fst (get_feedback_counts s') = 2%nat.
Proof.
  destruct feedback_counts_after_rounds as [Hfeedback _].
  destruct (Hfeedback unit_encoder first_two app_A request_positive_A 5%Z
              (session_of [first_iteration]) first_iteration
              (Some [[1; 0]]) None
              (["A"], [dot (vdiv [1; 0] (norm [1; 0])) [1; 0]],
               images store_A))
    as (app' & resp & s' & Hrun & Hs' & Hp & _).
  - reflexivity.
  - reflexivity.
  - left. discriminate.
  - reflexivity.
  - reflexivity.
  - transitivity (search store_A [1; 0] 1); [|exact search_A].
    apply (f_equal (fun q => search store_A q 1)), feedback_refined_query_A.
  - exists app', resp, s'. split; [exact Hrun|]. split; [exact Hs'|].
    split; [reflexivity|].
    change (fst (get_feedback_counts s') + 0 = 0 + 2 * 1)%nat in Hp. lia.
Defined.

(** ** Session information *)

Lemma add_iteration_last_type sm sid qv qtype res p n t now sm' i :
  add_iteration sm sid qv qtype res p n t now = Ok (sm', i) ->
  exists s' it,
    sessions sm' !! sid = Some s'
    /\ last (iterations s') = Some it
    /\ query_type it = qtype.
Proof.
  unfold add_iteration. destruct (sessions sm !! sid) as [s|];
    [|discriminate].
  intros [= <- _]. eexists _, _. cbn [sessions].
  split; [apply lookup_insert_eq|]. cbn [iterations].
  split; [apply last_snoc|reflexivity].
Qed.

(** X19: [get_session_info] answers 404 for an unknown session.  For a
    known one it can build its answer only when the last iteration was a
    text or an image search: a session without iterations (type "none")
    and a session whose last round was a feedback or a pseudo-feedback
    round fail the validation of the query type, so after every successful
    feedback or pseudo-feedback round the session's information cannot be
    read until a new text or image search is recorded. *)
Theorem get_session_info_behaviour :
  forall (app : App) (sid : string),
    (sessions (session_manager app) !! sid = None ->
     get_session_info app sid = InfoNotFound)
    /\ (forall s,
          sessions (session_manager app) !! sid = Some s ->
          iterations s = [] ->
          get_session_info app sid = InfoValidationError)
    /\ (forall s it,
          sessions (session_manager app) !! sid = Some s ->
          last (iterations s) = Some it ->
          (query_type it = "feedback" \/ query_type it = "pseudo_feedback" ->
           get_session_info app sid = InfoValidationError)
          /\ (query_type it = "text" ->
              get_session_info app sid
              = InfoOk {| info_session_id := sid;
                          info_iterations := length (iterations s);
                          current_query_type := TEXT;
                          feedback_counts := get_feedback_counts s |})
          /\ (query_type it = "image" ->
              get_session_info app sid
              = InfoOk {| info_session_id := sid;
                          info_iterations := length (iterations s);
                          current_query_type := IMAGE;
                          feedback_counts := get_feedback_counts s |}))
    /\ (forall enc pca request now app' resp,
          rf_session_id request = sid ->
          relevance_feedback enc pca app request now = Ok (app', resp) ->
          get_session_info app' sid = InfoValidationError)
    /\ (forall pca request now app' resp,
          pf_session_id request = sid ->
          pseudo_feedback pca app request now = Ok (app', resp) ->
          get_session_info app' sid = InfoValidationError).
Proof.
  intros app sid. split; [|split; [|split; [|split]]].
  - intros Hs. unfold get_session_info, get_session. rewrite Hs. reflexivity.
  - intros s Hs Hits. unfold get_session_info, get_session.
    rewrite Hs, Hits. reflexivity.
  - intros s it Hs Hlast. unfold get_session_info, get_session.
    rewrite Hs, Hlast. split; [|split].
    + intros [-> | ->]; reflexivity.
    + intros ->. reflexivity.
    + intros ->. reflexivity.
  - intros enc pca request now app' resp <- Hrun.
    unfold relevance_feedback, get_session in Hrun. cbv zeta in Hrun.
    destruct (sessions (session_manager app) !! rf_session_id request)
      as [s|] eqn:Hs; [|discriminate Hrun].
    destruct (current_query_vector s) as [q|] eqn:Hq; [|discriminate Hrun].
    destruct (bool_decide (rf_feedback_items request = [])
              && negb (truthy (rf_text_feedback request)));
      [discriminate Hrun|].
    revert Hrun. outcome_step.
    destruct (vectors_if_any _ _) as [pv| |]; try discriminate.
    destruct (vectors_if_any _ _) as [nv| |]; try discriminate.
    destruct (search _ _ _) as [found| |]; try discriminate.
    destruct (add_iteration _ _ _ _ _ _ _ _ _) as [[sm it]| |] eqn:Hadd;
      try discriminate.
    intros [= <- _].
    apply add_iteration_last_type in Hadd as (s' & it' & Hs' & Hlast' & Hty).
    unfold get_session_info, get_session. cbn [session_manager].
    rewrite Hs', Hlast', Hty. reflexivity.
  - intros pca request now app' resp <- Hrun.
    unfold pseudo_feedback, get_session in Hrun. cbv zeta in Hrun.
    destruct (sessions (session_manager app) !! pf_session_id request)
      as [s|] eqn:Hs; [|discriminate Hrun].
    destruct (current_query_vector s) as [q|] eqn:Hq; [|discriminate Hrun].
    revert Hrun. outcome_step.
    destruct (pseudo_refined_query _ _ _ _) as [refined| |];
      try discriminate.
    destruct (search _ _ _) as [found| |]; try discriminate.
    rewrite (add_iteration_appends _ _ s _ _ _ _ _ _ _ Hs).
    intros [= <- _].
    unfold get_session_info, get_session. cbn [session_manager sessions].
    rewrite lookup_insert_eq. cbn [iterations]. rewrite last_snoc.
    reflexivity.
Qed.

(** ** The rounds: rejections *)

Lemma known_ids_none s ids :
  Forall (fun id => id_to_idx s !! id = None) ids -> known_ids s ids = [].
Proof.
  induction 1 as [|id ids Hid _ IH]; [reflexivity|].
  unfold known_ids. cbn [List.filter]. fold (known_ids s ids).
  rewrite bool_decide_eq_false_2; [exact IH|].
  rewrite Hid. intros [x Hx]. discriminate Hx.
Qed.

Lemma get_vectors_unknown s ids :
  Forall (fun id => id_to_idx s !! id = None) ids ->
  get_vectors s ids = Ok [].
Proof.
  intros H. rewrite get_vectors_known_only, (known_ids_none s ids H).
  reflexivity.
Qed.

(** X20: what the two feedback handlers reject, leaving the state as it
    was.  Both answer 404 for an unknown session and 400 for a session
    without iterations.  The feedback handler answers 400 when the request
    has no feedback items and no non-empty text.  The pseudo-feedback
    handler answers 400 when none of the first [top_m] results of the last
    iteration has a vector in the store, in particular when the last
    search returned nothing. *)
Theorem feedback_handlers_rejections :
  forall (enc : Encoder) (pca : Reducer) (app : App) (now : Z)
         (fr : RelevanceFeedbackRequest) (pr : PseudoFeedbackRequest),
    (sessions (session_manager app) !! rf_session_id fr = None ->
     relevance_feedback enc pca app fr now = Raise (HTTPException 404))
    /\ (sessions (session_manager app) !! pf_session_id pr = None ->
        pseudo_feedback pca app pr now = Raise (HTTPException 404))
    /\ (forall s,
          sessions (session_manager app) !! rf_session_id fr = Some s ->
          iterations s = [] ->
          relevance_feedback enc pca app fr now = Raise (HTTPException 400))
    /\ (forall s,
          sessions (session_manager app) !! pf_session_id pr = Some s ->
          iterations s = [] ->
          pseudo_feedback pca app pr now = Raise (HTTPException 400))
    /\ (forall s,
          sessions (session_manager app) !! rf_session_id fr = Some s ->
          rf_feedback_items fr = [] ->
          truthy (rf_text_feedback fr) = false ->
          relevance_feedback enc pca app fr now = Raise (HTTPException 400))
    /\ (forall s last_it,
          sessions (session_manager app) !! pf_session_id pr = Some s ->
          last (iterations s) = Some last_it ->
          Forall (fun id => id_to_idx (vector_store app) !! id = None)
                 (slice_to (pf_top_m pr) (results last_it)) ->
          pseudo_feedback pca app pr now = Raise (HTTPException 400))
    /\ (forall s last_it,
          sessions (session_manager app) !! pf_session_id pr = Some s ->
          last (iterations s) = Some last_it ->
          results last_it = [] ->
          pseudo_feedback pca app pr now = Raise (HTTPException 400)).
Proof.
  intros enc pca app now fr pr.
  assert (Hnone : forall s last_it,
            sessions (session_manager app) !! pf_session_id pr = Some s ->
            last (iterations s) = Some last_it ->
            Forall (fun id => id_to_idx (vector_store app) !! id = None)
                   (slice_to (pf_top_m pr) (results last_it)) ->
            pseudo_feedback pca app pr now = Raise (HTTPException 400)).
  { intros s last_it Hs Hlast Hunknown.
    unfold pseudo_feedback, get_session. rewrite Hs.
    rewrite (current_query_vector_last s last_it Hlast).
    unfold pseudo_refined_query. rewrite Hlast.
    rewrite (get_vectors_unknown _ _ Hunknown). reflexivity. }
  split; [|split; [|split; [|split; [|split; [|split]]]]].
  - intros Hs. unfold relevance_feedback, get_session. rewrite Hs.
    reflexivity.
  - intros Hs. unfold pseudo_feedback, get_session. rewrite Hs. reflexivity.
  - intros s Hs Hits. unfold relevance_feedback, get_session. rewrite Hs.
    unfold current_query_vector. rewrite Hits. reflexivity.
  - intros s Hs Hits. unfold pseudo_feedback, get_session. rewrite Hs.
    unfold current_query_vector. rewrite Hits. reflexivity.
  - intros s Hs Hitems Htext. unfold relevance_feedback, get_session.
    rewrite Hs. destruct (current_query_vector s); [|reflexivity].
    rewrite Hitems, Htext. reflexivity.
  - exact Hnone.
  - intros s last_it Hs Hlast Hres. apply (Hnone s last_it Hs Hlast).
    rewrite Hres. unfold slice_to.
    destruct (0 <=? pf_top_m pr)%Z; rewrite take_nil; constructor.
Qed.

(** ** The rounds: feedback that names only unknown images *)

Lemma vectors_if_any_unknown vs ids :
  Forall (fun id => id_to_idx vs !! id = None) ids ->
  exists pv, vectors_if_any vs ids = Ok pv /\ has_rows pv = false.
Proof.
  intros H. destruct ids as [|id ids].
  - exists None. split; reflexivity.
  - exists (Some []). unfold vectors_if_any.
    rewrite (get_vectors_unknown vs _ H). split; reflexivity.
Qed.

(** X21: feedback items whose images the store does not know are dropped
    without an error.  A feedback round that has no text and names only
    unknown images runs the search again with the session's current query
    vector unchanged, and records that same vector as a new iteration. *)
Theorem feedback_with_unknown_images_repeats_query :
  forall (enc : Encoder) (pca : Reducer) (app : App)
         (request : RelevanceFeedbackRequest) (now : Z) (s : Session)
         (last_it : SearchIteration)
         (found : list string * list R * list ImageData),
    sessions (session_manager app) !! rf_session_id request = Some s ->
    last (iterations s) = Some last_it ->
    rf_feedback_items request <> [] ->
    truthy (rf_text_feedback request) = false ->
    Forall (fun f => id_to_idx (vector_store app) !! item_image_id f = None)
           (rf_feedback_items request) ->
    search (vector_store app) (query_vector last_it) (Z.pos (rf_top_k request))
    = Ok found ->
    exists app' resp s' new,
      relevance_feedback enc pca app request now = Ok (app', resp)
      /\ resp_results resp = found
      /\ sessions (session_manager app') !! rf_session_id request = Some s'
      /\ last (iterations s') = Some new
      /\ query_vector new = query_vector last_it
      /\ length (iterations s') = S (length (iterations s)).
Proof.
  intros enc pca app request now s last_it found Hs Hlast Hitems Htext
    Hunknown Hfound.
  set (positive_ids :=
         map item_image_id
             (List.filter is_positive (rf_feedback_items request))).
  set (negative_ids :=
         map item_image_id
             (List.filter is_negative (rf_feedback_items request))).
  assert (Hfilter : forall keep,
            Forall (fun id => id_to_idx (vector_store app) !! id = None)
                   (map item_image_id
                        (List.filter keep (rf_feedback_items request)))).
  { intros keep. apply Forall_map, Forall_forall. intros f Hf.
    rewrite Forall_forall in Hunknown. apply Hunknown.
    apply list_elem_of_In. apply list_elem_of_In, filter_In in Hf as [Hf _].
    exact Hf. }
  destruct (vectors_if_any_unknown (vector_store app) positive_ids
              (Hfilter is_positive)) as (pv & Hpv & Hpv0).
  destruct (vectors_if_any_unknown (vector_store app) negative_ids
              (Hfilter is_negative)) as (nv & Hnv & Hnv0).
  assert (Hrefined : feedback_refined_query enc (query_vector last_it) pv nv
                       (rf_text_feedback request) = query_vector last_it).
  { unfold feedback_refined_query. rewrite Hpv0, Hnv0, Htext. reflexivity. }
  destruct (relevance_feedback_exact enc pca app request now s last_it pv nv
              found Hs Hlast (or_introl Hitems) Hpv Hnv)
    as (app' & resp & Hrun & _ & Hres & Hs').
  { rewrite Hrefined. exact Hfound. }
  eexists app', resp, _, _. split; [exact Hrun|]. split; [exact Hres|].
  split; [exact Hs'|]. cbn [iterations].
  split; [apply last_snoc|]. cbn [query_vector].
  split; [exact Hrefined|].
  rewrite length_app, length_alter. simpl. lia.
Qed.

Lemma feedback_with_unknown_images_repeats_query_witness :
  exists app' resp s' new,
    relevance_feedback unit_encoder first_two app_A
      {| rf_session_id := "s";
         rf_feedback_items :=
           [{| item_image_id := "ghost"; feedback := NEGATIVE |}];
         rf_text_feedback := None;
         rf_top_k := 1 |} 5 = Ok (app', resp)
    /\ sessions (session_manager app') !! "s" = Some s'
    /\ last (iterations s') = Some new
    /\ query_vector new = [1; 0].
Proof.
  destruct (feedback_with_unknown_images_repeats_query unit_encoder first_two
              app_A
              {| rf_session_id := "s";
                 rf_feedback_items :=
                   [{| item_image_id := "ghost"; feedback := NEGATIVE |}];
                 rf_text_feedback := None;
                 rf_top_k := 1 |} 5%Z (session_of [first_iteration])
              first_iteration
              (["A"], [dot (vdiv [1; 0] (norm [1; 0])) [1; 0]],
               images store_A))
    as (app' & resp & s' & new & Hrun & _ & Hs' & Hlast & Hq & _).
  - reflexivity.
  - reflexivity.
  - discriminate.
  - reflexivity.
  - repeat constructor.
  - exact search_A.
  - exists app', resp, s', new. repeat split; assumption.
Defined.

(** ** The search handlers *)

Lemma search_wrong_dimension s q k :
  (0 < total_images s)%nat -> length q <> dimension s ->
  search s q k = Raise AssertionError.
Proof.
  intros Htotal Hdim. unfold search, total_images in *.
  destruct (Nat.eqb_spec (ntotal (index s)) 0) as [H0|_]; [lia|].
  destruct (Nat.eqb_spec (length q) (dimension s)) as [He|_];
    [contradiction|reflexivity].
Qed.

(** X22: the order of the checks in the two search handlers.  An upload
    that is not an image is rejected by [search_by_image] with 400 before
    any session is looked up or created: the state is unchanged.  A search
    that fails later, because the encoded query does not have the
    dimension of a non-empty store, is answered with the engine's
    assertion error by both handlers, but only after the session was
    created: with no session id in the request, the fresh session stays
    behind without any iteration, and its trajectory is empty. *)
Theorem search_handlers_check_order :
  forall (pca : Reducer) (app : App) (new_id : string) (now : Z),
    (forall enc image k sid,
       not_an_image image = true ->
       search_by_image enc pca app image k sid new_id now
       = (app, Raise (HTTPException 400)))
    /\ (forall (enc : Encoder) request,
          ts_session_id request = None ->
          (0 < total_images (vector_store app))%nat ->
          length (enc (ts_query request)) <> dimension (vector_store app) ->
          exists app',
            search_by_text enc pca app request new_id now
            = (app', Raise AssertionError)
            /\ vector_store app' = vector_store app
            /\ sessions (session_manager app') !! new_id
               = Some {| session_id := new_id; created_at := now;
                         iterations := [] |}
            /\ get_query_vectors_2d pca (session_manager app') new_id None
               = [])
    /\ (forall (enc : ImageEncoder) image k,
          not_an_image image = false ->
          (0 < total_images (vector_store app))%nat ->
          length (enc (file_bytes image)) <> dimension (vector_store app) ->
          exists app',
            search_by_image enc pca app image k None new_id now
            = (app', Raise AssertionError)
            /\ vector_store app' = vector_store app
            /\ sessions (session_manager app') !! new_id
               = Some {| session_id := new_id; created_at := now;
                         iterations := [] |}
            /\ get_query_vectors_2d pca (session_manager app') new_id None
               = []).
Proof.
  intros pca app new_id now. split; [|split].
  - intros enc image k sid Hbad. unfold search_by_image. rewrite Hbad.
    reflexivity.
  - intros enc request Hsid Htotal Hdim. unfold search_by_text.
    rewrite Hsid. cbn [get_or_create_session create_session vector_store].
    rewrite (search_wrong_dimension _ _ _ Htotal Hdim).
    eexists. split; [reflexivity|]. cbn [vector_store session_manager].
    split; [reflexivity|].
    assert (Hlook : forall m : gmap string Session,
              <[new_id := {| session_id := new_id; created_at := now;
                             iterations := [] |}]> m !! new_id
              = Some {| session_id := new_id; created_at := now;
                        iterations := [] |})
      by (intros m; apply lookup_insert_eq).
    split; [apply Hlook|].
    unfold get_query_vectors_2d. cbn [sessions]. rewrite Hlook. reflexivity.
  - intros enc image k Himg Htotal Hdim. unfold search_by_image.
    rewrite Himg. cbn [get_or_create_session create_session vector_store].
    rewrite (search_wrong_dimension _ _ _ Htotal Hdim).
    eexists. split; [reflexivity|]. cbn [vector_store session_manager].
    split; [reflexivity|].
    assert (Hlook : forall m : gmap string Session,
              <[new_id := {| session_id := new_id; created_at := now;
                             iterations := [] |}]> m !! new_id
              = Some {| session_id := new_id; created_at := now;
                        iterations := [] |})
      by (intros m; apply lookup_insert_eq).
    split; [apply Hlook|].
    unfold get_query_vectors_2d. cbn [sessions]. rewrite Hlook. reflexivity.
Qed.

(** X24: the calls of [search] that the engine does not answer with hits.
    On a non-empty store a count k <= 0 fails the engine's assertion
    [k > 0], whatever the query; a query of zero norm with the store's
    dimension and k >= 1 becomes NaN in the division and gets the empty
    answer.  [search_by_image] does not validate its [top_k]: with
    top_k <= 0 on a non-empty store it ends with the assertion error, and
    the session it created before the search stays behind without an
    iteration. *)
Theorem search_degenerate_calls :
  forall (s : VectorStore) (q : vec) (k : Z),
    (0 < total_images s)%nat ->
    ((k <= 0)%Z -> search s q k = Raise AssertionError)
    /\ (length q = dimension s -> (1 <= k)%Z -> norm q = 0 ->
        search s q k = Ok ([], [], []))
    /\ (forall (enc : ImageEncoder) (pca : Reducer) (sm : SessionManager)
               (image : UploadFile) (new_id : string) (now : Z),
          not_an_image image = false -> (k <= 0)%Z ->
          exists app',
            search_by_image enc pca
              {| vector_store := s; session_manager := sm |} image k None
              new_id now
            = (app', Raise AssertionError)
            /\ vector_store app' = s
            /\ sessions (session_manager app') !! new_id
               = Some {| session_id := new_id; created_at := now;
                         iterations := [] |}).
Proof.
  intros s q k Htotal. split; [|split].
  - intros Hk. apply search_nonpositive_count; assumption.
  - intros Hlen Hk Hz. apply search_zero_norm; [assumption|assumption|lia|].
    exact Hz.
  - intros enc pca sm image new_id now Himg Hk. unfold search_by_image.
    rewrite Himg. cbn [get_or_create_session create_session vector_store].
    rewrite (search_nonpositive_count _ _ _ Htotal Hk).
    eexists. split; [reflexivity|]. cbn [vector_store session_manager].
    split; [reflexivity|]. apply lookup_insert_eq.
Qed.

Lemma search_degenerate_calls_witness :
  (0 < total_images store_A)%nat /\ search store_A [0; 0] 1 = Ok ([], [], []).
Proof.
  assert (Htotal : (0 < total_images store_A)%nat)
    by (unfold total_images; simpl; lia).
  split; [exact Htotal|].
  destruct (search_degenerate_calls store_A [0; 0] 1 Htotal) as (_ & H & _).
  apply H; [reflexivity|lia|exact norm_0_0].
Defined.

(** ** Text-only feedback *)

Lemma length_residual_compose self q t :
  length t = length q -> length (_residual_compose self q t) = length q.
Proof.
  intros H. unfold _residual_compose. apply length_vadd.
  rewrite length_scale, length_residual_of by exact H. reflexivity.
Qed.

Lemma compose_residual_unit self q t :
  length t = length q -> 0 < norm q ->
  norm (compose self q t (Some RESIDUAL)) = 1
  /\ length (compose self q t (Some RESIDUAL)) = length q.
Proof.
  intros Hlen Hq.
  assert (Hlen' : length (_normalize t) = length (_normalize q))
    by (rewrite !length_normalize; exact Hlen).
  pose proof (norm_normalize q Hq) as Hunit.
  pose proof (residual_compose_norm_pos self _ _ Hlen' Hunit) as Hpos.
  unfold compose. simpl default. split.
  - apply norm_normalize. exact Hpos.
  - rewrite length_normalize, length_residual_compose by exact Hlen'.
    apply length_normalize.
Qed.

(** X23: a feedback round with text only cannot fail once the dimensions
    fit: if the session's current query vector has non-zero norm and the
    store's dimension, and the encoder returns a vector of that dimension
    for the text, then the round returns normally, and the query vector it
    records has norm 1. *)
Theorem text_only_feedback_succeeds :
  forall (enc : Encoder) (pca : Reducer) (app : App)
         (request : RelevanceFeedbackRequest) (now : Z) (s : Session)
         (last_it : SearchIteration) (text : string),
    sessions (session_manager app) !! rf_session_id request = Some s ->
    last (iterations s) = Some last_it ->
    rf_feedback_items request = [] ->
    rf_text_feedback request = Some text ->
    text <> "" ->
    0 < norm (query_vector last_it) ->
    length (query_vector last_it) = dimension (vector_store app) ->
    length (enc text) = dimension (vector_store app) ->
    exists app' resp s' new,
      relevance_feedback enc pca app request now = Ok (app', resp)
      /\ sessions (session_manager app') !! rf_session_id request = Some s'
      /\ last (iterations s') = Some new
      /\ query_vector new
         = compose query_composer (query_vector last_it) (enc text)
             (Some RESIDUAL)
      /\ norm (query_vector new) = 1
      /\ text_feedback new = Some text.
Proof.
  intros enc pca app request now s last_it text Hs Hlast Hitems Htext Hne
    Hnorm Hlenq Hlent.
  assert (Htruthy : truthy (rf_text_feedback request) = true).
  { rewrite Htext. simpl. destruct (String.eqb_spec text ""); [contradiction|].
    reflexivity. }
  destruct (compose_residual_unit query_composer (query_vector last_it)
              (enc text)) as [Hunit Hlen]; [congruence|exact Hnorm|].
  assert (Hrefined : feedback_refined_query enc (query_vector last_it) None
                       None (rf_text_feedback request)
                     = compose query_composer (query_vector last_it)
                         (enc text) (Some RESIDUAL)).
  { unfold feedback_refined_query. rewrite Htruthy, Htext. reflexivity. }
  destruct (relevance_feedback_exact enc pca app request now s last_it None
              None
              (if Nat.eqb (ntotal (index (vector_store app))) 0
               then ([], [], [])
               else collect_hits (images (vector_store app))
                      (index_search (index (vector_store app))
                         (vdiv (compose query_composer (query_vector last_it)
                                  (enc text) (Some RESIDUAL))
                               (norm (compose query_composer
                                        (query_vector last_it) (enc text)
                                        (Some RESIDUAL))))
                         (Nat.min (Z.to_nat (Z.pos (rf_top_k request)))
                            (ntotal (index (vector_store app)))))))
    as (app' & resp & Hrun & _ & _ & Hs').
  - exact Hs.
  - exact Hlast.
  - right. exact Htruthy.
  - rewrite Hitems. reflexivity.
  - rewrite Hitems. reflexivity.
  - rewrite Hrefined, search_defined;
      [|rewrite Hunit; lra|rewrite Hlen; exact Hlenq|lia].
    destruct (Nat.eqb (ntotal (index (vector_store app))) 0); reflexivity.
  - eexists app', resp, _, _. split; [exact Hrun|]. split; [exact Hs'|].
    cbn [iterations]. split; [apply last_snoc|]. cbn [query_vector text_feedback].
    split; [exact Hrefined|]. split; [rewrite Hrefined; exact Hunit|exact Htext].
Qed.

Lemma text_only_feedback_succeeds_witness :
  exists app' resp s' new,
    relevance_feedback unit_encoder first_two app_A
      {| rf_session_id := "s"; rf_feedback_items := [];
         rf_text_feedback := Some "navy"; rf_top_k := 1 |} 5
    = Ok (app', resp)
    /\ sessions (session_manager app') !! "s" = Some s'
    /\ last (iterations s') = Some new
    /\ norm (query_vector new) = 1.
Proof.
  destruct (text_only_feedback_succeeds unit_encoder first_two app_A
              {| rf_session_id := "s"; rf_feedback_items := [];
                 rf_text_feedback := Some "navy"; rf_top_k := 1 |} 5%Z
              (session_of [first_iteration]) first_iteration "navy")
    as (app' & resp & s' & new & Hrun & Hs' & Hlast & _ & Hnorm & _).
  - reflexivity.
  - reflexivity.
  - reflexivity.
  - reflexivity.
  - discriminate.
  - change (query_vector first_iteration) with [1; 0].
    rewrite norm_1_0. lra.
  - reflexivity.
  - reflexivity.
  - exists app', resp, s', new. repeat split; assumption.
Defined.
